(** * Sensor emulator data adapter (package dataadapter)

    A shallow embedding of the sensor emulator adapter: the path tree
    codec ([parseNode], [convertDataToVisFormat], [convertVisFormatToData]),
    adapter construction ([NewSensorEmulatorAdapter]), the write path
    ([SetData]) and the periodic refresh ([processData]).

    Go values of type [interface{}] are the type [value]; a Go map that the
    code ranges over is the list of its entries in the order [range] visits
    them (the language leaves that order unspecified, so every statement
    below holds for every order); a Go map that the code builds with [make]
    and index assignment is a [gmap]. *)

From Stdlib Require Import PrimFloat.
From Stdlib.Strings Require Import Byte.
From stdpp Require Import gmap strings list fin_maps.

Open Scope string_scope.
Open Scope list_scope.
Set Warnings "-register-all,-clear-no-such-hyp".

(** ** Strings *)

Module GoStrings.

Abbreviation strlen := Stdlib.Strings.String.length.
Abbreviation substring := Stdlib.Strings.String.substring.
Abbreviation streqb := Stdlib.Strings.String.eqb.

(** [strings.HasPrefix]: [len(s) >= len(prefix) && s[0:len(prefix)] == prefix]. *)
Definition HasPrefix (s prefix : string) : bool :=
  (strlen prefix <=? strlen s)%nat
  && streqb (substring 0 (strlen prefix) s) prefix.

(** [strings.TrimPrefix]: [s[len(prefix):]] when [s] has the prefix, else [s]. *)
Definition TrimPrefix (s prefix : string) : string :=
  if HasPrefix s prefix
  then substring (strlen prefix) (strlen s - strlen prefix) s
  else s.

End GoStrings.

Import GoStrings.

#[global] Instance byte_eq_decision : EqDecision byte := Byte.byte_eq_dec.

(** ** Values *)

(** A Go value held in an [interface{}], as [encoding/json] produces and
    consumes them: [nil], [bool], [float64], [string], [[]interface{}] and
    [map[string]interface{}].  The entries of a map are listed in the order
    in which [range] visits them; in a Go map the keys are pairwise distinct
    ([wf_value]). *)
Inductive value : Type :=
| VNil
| VBool (b : bool)
| VNumber (f : float)
| VString (s : string)
| VArray (l : list value)
| VObject (m : list (string * value)).

(** The type assertion [element.(map[string]interface{})]. *)
Definition is_object (element : value) : bool :=
  match element with VObject _ => true | _ => false end.

(** Induction over values that reaches the elements of arrays and the
    entries of objects. *)
Section value_induction.
Variable P : value → Prop.
Hypothesis HNil : P VNil.
Hypothesis HBool : ∀ b, P (VBool b).
Hypothesis HNumber : ∀ f, P (VNumber f).
Hypothesis HString : ∀ s, P (VString s).
Hypothesis HArray : ∀ l, Forall P l → P (VArray l).
Hypothesis HObject : ∀ m, Forall (λ kv, P kv.2) m → P (VObject m).

Fixpoint value_nested_ind (v : value) : P v :=
  match v with
  | VNil => HNil
  | VBool b => HBool b
  | VNumber f => HNumber f
  | VString s => HString s
  | VArray l =>
      HArray l
        ((fix go (l : list value) : Forall P l :=
            match l with
            | [] => Forall_nil_2 P
            | x :: l' => Forall_cons_2 P x l' (value_nested_ind x) (go l')
            end) l)
  | VObject m =>
      HObject m
        ((fix go (m : list (string * value)) : Forall (λ kv, P kv.2) m :=
            match m with
            | [] => Forall_nil_2 _
            | kv :: m' =>
                Forall_cons_2 (λ kv, P kv.2) kv m' (value_nested_ind kv.2) (go m')
            end) m)
  end.
End value_induction.

(** Keys of a Go map are pairwise distinct, at every level of nesting. *)
Fixpoint wf_value (v : value) : bool :=
  match v with
  | VArray l => forallb wf_value l
  | VObject m =>
      bool_decide (NoDup m.*1)
      && (fix go (m : list (string * value)) : bool :=
            match m with
            | [] => true
            | (_, x) :: m' => wf_value x && go m'
            end) m
  | _ => true
  end.

(** ** Path tree codec *)

(** [for visPath, visValue := range src { dst[visPath] = visValue }] *)
Definition copy_into (src dst : gmap string value) : gmap string value :=
  map_fold (λ visPath visValue acc, <[visPath := visValue]> acc) dst src.

(** [parseNode]: an object is walked entry by entry, every entry flattened
    under [prefix + "." + path] and copied into [visData]; anything else is
    stored under [prefix]. *)
Fixpoint parseNode (prefix : string) (element : value) : gmap string value :=
  match element with
  | VObject m =>
      (fix range (m : list (string * value)) (visData : gmap string value)
         : gmap string value :=
         match m with
         | [] => visData
         | (path, v) :: rest =>
             range rest (copy_into (parseNode (prefix +:+ "." +:+ path) v) visData)
         end) m ∅
  | _ => {[ prefix := element ]}
  end.

(** The loop of [parseNode] over the entries [m], started from [visData]. *)
Definition parseNode_range (prefix : string) (m : list (string * value))
    (visData : gmap string value) : gmap string value :=
  fold_left
    (λ acc kv, copy_into (parseNode (prefix +:+ "." +:+ kv.1) kv.2) acc)
    m visData.

(** The leaves of a document with their dot-joined paths, in visiting
    order: every value that is not an object, under the keys that lead to it. *)
Fixpoint leaves (prefix : string) (element : value) : list (string * value) :=
  match element with
  | VObject m =>
      (fix go (m : list (string * value)) : list (string * value) :=
         match m with
         | [] => []
         | (path, v) :: rest => leaves (prefix +:+ "." +:+ path) v ++ go rest
         end) m
  | _ => [(prefix, element)]
  end.

(** The character [.] that joins the segments of a path. *)
Definition dot : Stdlib.Strings.Ascii.ascii := Stdlib.Strings.Ascii.ascii_of_N 46.

(** A key with no dot in it. *)
Fixpoint dot_free (key : string) : bool :=
  match key with
  | EmptyString => true
  | String c rest => negb (Stdlib.Strings.Ascii.eqb c dot) && dot_free rest
  end.

(** No key of the document, at any depth, has a dot in it. *)
Fixpoint keys_dot_free (v : value) : bool :=
  match v with
  | VObject m =>
      (fix go (m : list (string * value)) : bool :=
         match m with
         | [] => true
         | (key, x) :: m' => dot_free key && keys_dot_free x && go m'
         end) m
  | _ => true
  end.

(** ** Errors, results and the outside world *)

(** Go [error] values: [errors.New] and [fmt.Errorf] build an
    [errorString]; the others are the errors of [encoding/json], and the
    errors that the network, URL and base adapter layers hand back. *)
Inductive error : Type :=
| errorString (msg : string)
| SyntaxError (msg : string)
| UnmarshalTypeError (Field : string)
| UnsupportedValueError
| foreignError (msg : string).

(** A Go [(x, err)] return. *)
Inductive result (A : Type) : Type :=
| Ok (a : A)
| Err (e : error).
Arguments Ok {A} a.
Arguments Err {A} e.

(** The text of a parsed JSON document; a number keeps its literal. *)
Inductive json : Type :=
| JNull
| JBool (b : bool)
| JNumber (lit : string)
| JString (s : string)
| JArray (l : list json)
| JObject (members : list (string * json)).

(** [*http.Response] as far as the adapter reads it; [Body] is what
    [ioutil.ReadAll(res.Body)] returns. *)
Record Response : Type := mkResponse {
  StatusCode : Z;
  Status : string;
  Body : result (list byte)
}.

(** Modelled from the spec: [baseData], one row of the base adapter's
    store.  The struct is declared in another file of the package; of the
    row the spec describes, the adapter only ever sets [Value], and
    [&baseData{}] leaves it [nil]. *)
Record baseData : Type := mkBaseData { Value : value }.

(** Modelled from the spec: [BaseAdapter], whose struct is declared in
    another file of the package: the adapter's name, the store from path to
    row, and the one lock that guards it ([mutex] is [true] while the lock
    is held). *)
Record BaseAdapter : Type := mkBaseAdapter {
  name : string;
  data : gmap string baseData;
  mutex : bool
}.

(** What the adapter calls but does not define: the standard library
    ([encoding/json], [net/url], [net/http]) and the base adapter of the same
    package.  [Net] is the state of everything behind the HTTP client. *)
Class Externals : Type := {
  URL : Type;
  Net : Type;
  (** syntax check and parse of a JSON text *)
  json_parse : list byte → result json;
  (** whether an object key selects a struct field when it is not spelled
      exactly like it ([encoding/json] ignores case) *)
  fold_equal : string → string → bool;
  (** [json.Unmarshal(data, &v)] for [v interface{}] *)
  json_Unmarshal : list byte → result value;
  (** the JSON text of a map whose values [json.Marshal] supports *)
  json_encode : gmap string value → list byte;
  url_Parse : string → result URL;
  (** [u.ResolveReference(ref)] for a non-nil [u] *)
  ResolveReference : URL → URL → URL;
  URL_String : URL → string;
  http_Get : string → Net → result Response * Net;
  http_Post : string → string → list byte → Net → result Response * Net;
  newBaseAdapter : result BaseAdapter;
  (** the method [setData] of [BaseAdapter] *)
  setData : BaseAdapter → gmap string value → BaseAdapter * option error
}.

(** What an observer sees the adapter do, in order: its requests, its calls
    into the base adapter, the errors it logs and the goroutine it starts
    (informational and debug log lines are left out). *)
Inductive event : Type :=
| EvGet (address : string)
| EvPost (address contentType : string) (body : list byte)
| EvSetData (updates : gmap string value)
| EvLogError (format : string) (err : error)
| EvGo (routine : string).

Section Adapter.
Context `{Ext : Externals}.

Record world : Type := mkWorld {
  net : Net;
  trace : list event
}.

(** A call either returns (a value and the world after it) or panics. *)
Inductive outcome (A : Type) : Type :=
| Returns (a : A) (w : world)
| Panics (msg : string) (w : world).
Arguments Returns {A} a w.
Arguments Panics {A} msg w.

Definition M (A : Type) : Type := world → outcome A.

Definition ret {A : Type} (a : A) : M A := λ w, Returns a w.

Definition bind {A B : Type} (k : A → M B) (m : M A) : M B :=
  λ w, match m w with
       | Returns a w' => k a w'
       | Panics msg w' => Panics msg w'
       end.

#[local] Instance M_ret : MRet M := @ret.
#[local] Instance M_bind : MBind M := @bind.

Definition panic {A : Type} (msg : string) : M A := λ w, Panics msg w.

(** What a call returned, if it did, and the world it left. *)
Definition returned {A : Type} (o : outcome A) : option A :=
  match o with
  | Returns a _ => Some a
  | Panics _ _ => None
  end.

Definition world_after {A : Type} (o : outcome A) : world :=
  match o with
  | Returns _ w => w
  | Panics _ w => w
  end.

Definition emit (e : event) : M unit :=
  λ w, Returns tt (mkWorld (net w) (trace w ++ [e])).

(** [http.Get(address)] *)
Definition Get (address : string) : M (result Response) :=
  λ w, let '(res, n) := http_Get address (net w) in
       Returns res (mkWorld n (trace w ++ [EvGet address])).

(** [http.Post(address, contentType, bytes.NewReader(body))] *)
Definition Post (address contentType : string) (body : list byte)
    : M (result Response) :=
  λ w, let '(res, n) := http_Post address contentType body (net w) in
       Returns res (mkWorld n (trace w ++ [EvPost address contentType body])).

(** [log.Errorf(format, err)] *)
Definition Errorf (format : string) (err : error) : M unit :=
  emit (EvLogError format err).

(** ** [encoding/json] on the types the adapter uses *)

(** [json.Marshal] rejects a number that is NaN or infinite; every other
    value built from [value] has a JSON text. *)
Fixpoint marshal_supported (v : value) : bool :=
  match v with
  | VNumber f => negb (PrimFloat.is_nan f || PrimFloat.is_infinity f)
  | VArray l => forallb marshal_supported l
  | VObject m =>
      (fix go (m : list (string * value)) : bool :=
         match m with
         | [] => true
         | (_, x) :: m' => marshal_supported x && go m'
         end) m
  | _ => true
  end.

(** [json.Marshal(&sendData)] for [sendData map[string]interface{}]. *)
Definition json_Marshal (sendData : gmap string value) : result (list byte) :=
  if forallb (λ kv, marshal_supported kv.2) (map_to_list sendData)
  then Ok (json_encode sendData)
  else Err UnsupportedValueError.

(** ** Types *)

Definition defaultUpdatePeriod : N := 500.

(** [uint64] values are the naturals below [2^64]. *)
Definition uint64_max : N := 2 ^ 64 - 1.

Record SensorEmulatorAdapter : Type := mkSensorEmulatorAdapter {
  sensorURL : option URL;           (* [*url.URL]; [None] is the nil pointer *)
  updatePeriod : N;
  baseAdapter : BaseAdapter
}.

Record config : Type := mkConfig {
  SensorURL : string;
  UpdatePeriod : N
}.

(** The fields of [config]. *)
Inductive config_field : Type := FSensorURL | FUpdatePeriod.

Definition field_name (f : config_field) : string :=
  match f with
  | FSensorURL => "SensorURL"
  | FUpdatePeriod => "UpdatePeriod"
  end.

(** The field an object key selects: the one spelled exactly like the key,
    else the first one that matches it up to case. *)
Definition find_field (key : string) : option config_field :=
  if decide (key = "SensorURL") then Some FSensorURL
  else if decide (key = "UpdatePeriod") then Some FUpdatePeriod
  else if fold_equal "SensorURL" key then Some FSensorURL
  else if fold_equal "UpdatePeriod" key then Some FUpdatePeriod
  else None.

Definition digit_value (c : Stdlib.Strings.Ascii.ascii) : option N :=
  let n := Stdlib.Strings.Ascii.N_of_ascii c in
  if ((48 <=? n) && (n <=? 57))%N then Some (n - 48)%N else None.

Fixpoint parse_digits (s : string) (acc : N) : option N :=
  match s with
  | EmptyString => Some acc
  | String c s' =>
      match digit_value c with
      | Some d => parse_digits s' (10 * acc + d)%N
      | None => None
      end
  end.

(** [strconv.ParseUint(lit, 10, 64)]: decimal digits only, within [uint64]. *)
Definition ParseUint (lit : string) : option N :=
  match lit with
  | EmptyString => None
  | _ =>
      match parse_digits lit 0 with
      | Some n => if (n <=? uint64_max)%N then Some n else None
      | None => None
      end
  end.

(** Decoding one member into the field it selects: [null] leaves the field
    alone, a string goes into [SensorURL], an unsigned decimal literal into
    [UpdatePeriod], anything else is a type error. *)
Definition set_field (f : config_field) (v : json) (cfg : config) : result config :=
  match v with
  | JNull => Ok cfg
  | _ =>
      match f, v with
      | FSensorURL, JString s => Ok (mkConfig s (UpdatePeriod cfg))
      | FUpdatePeriod, JNumber lit =>
          match ParseUint lit with
          | Some n => Ok (mkConfig (SensorURL cfg) n)
          | None => Err (UnmarshalTypeError (field_name f))
          end
      | _, _ => Err (UnmarshalTypeError (field_name f))
      end
  end.

(** The members of an object are decoded in document order into a struct
    that keeps every field no member selects. *)
Fixpoint unmarshal_members (members : list (string * json)) (cfg : config)
    : result config :=
  match members with
  | [] => Ok cfg
  | (key, v) :: rest =>
      match find_field key with
      | None => unmarshal_members rest cfg
      | Some f =>
          match set_field f v cfg with
          | Ok cfg' => unmarshal_members rest cfg'
          | Err e => Err e
          end
      end
  end.

(** [json.Unmarshal(configJSON, &cfg)] for [cfg config]. *)
Definition Unmarshal_config (configJSON : list byte) (cfg : config) : result config :=
  match json_parse configJSON with
  | Err e => Err e
  | Ok JNull => Ok cfg
  | Ok (JObject members) => unmarshal_members members cfg
  | Ok _ => Err (UnmarshalTypeError EmptyString)
  end.

(** ** Private functions of the adapter *)

(** [convertDataToVisFormat] *)
Definition convertDataToVisFormat (dataJSON : list byte)
    : result (gmap string value) :=
  match json_Unmarshal dataJSON with
  | Err err => Err err
  | Ok data => Ok (parseNode "Signal.Emulator" data)
  end.

(** The loop of [convertVisFormatToData] over the entries of [visData] in
    the order [range] yields them. *)
Fixpoint convert_range (visData : list (string * value))
    (sendData : gmap string value) : result (gmap string value) :=
  match visData with
  | [] => Ok sendData
  | (path, v) :: rest =>
      if HasPrefix path "Attribute.Emulator."
      then
        let path := TrimPrefix path "Attribute.Emulator." in
        convert_range rest (<[path := v]> sendData)
      else Err (errorString ("Path " +:+ path +:+ " does not exist"))
  end.

(** What the loop of [convertVisFormatToData] builds when it refuses no
    path: every entry, under its path without the prefix. *)
Definition stripped (visData : list (string * value)) (sendData : gmap string value)
    : gmap string value :=
  fold_left (λ acc kv, <[TrimPrefix kv.1 "Attribute.Emulator." := kv.2]> acc)
    visData sendData.

(** [convertVisFormatToData] *)
Definition convertVisFormatToData (visData : list (string * value))
    : result (list byte) :=
  match convert_range visData ∅ with
  | Err err => Err err
  | Ok sendData => json_Marshal sendData
  end.

(** [adapter.sensorURL.ResolveReference(path).String()]: the method reads
    the receiver's fields, so a nil [sensorURL] panics. *)
Definition resolve (adapter : SensorEmulatorAdapter) (path : URL) : M string :=
  match sensorURL adapter with
  | None => panic "runtime error: invalid memory address or nil pointer dereference"
  | Some u => ret (URL_String (ResolveReference u path))
  end.

(** [getDataFromSensorEmulator] *)
Definition getDataFromSensorEmulator (adapter : SensorEmulatorAdapter)
    : M (result (gmap string value)) :=
  match url_Parse "stats" with
  | Err err => ret (Err err)
  | Ok path =>
      address ← resolve adapter path;
      res ← Get address;
      match res with
      | Err err => ret (Err err)
      | Ok res =>
          match Body res with
          | Err err => ret (Err err)
          | Ok data => ret (convertDataToVisFormat data)
          end
      end
  end.

(** [adapter.baseAdapter.setData(updates)] *)
Definition base_setData (adapter : SensorEmulatorAdapter)
    (updates : gmap string value) : M (option error * SensorEmulatorAdapter) :=
  emit (EvSetData updates);;
  let '(base, err) := setData (baseAdapter adapter) updates in
  ret (err, mkSensorEmulatorAdapter (sensorURL adapter) (updatePeriod adapter) base).

(** ** The refresh task *)

(** [int64] wrap-around. *)
Definition int64 (z : Z) : Z := ((z + 2 ^ 63) mod 2 ^ 64 - 2 ^ 63)%Z.

(** [time.Duration(adapter.updatePeriod) * time.Millisecond], in nanoseconds. *)
Definition ticker_period (adapter : SensorEmulatorAdapter) : Z :=
  int64 (int64 (Z.of_N (updatePeriod adapter)) * 1000000).

(** How an iteration of a [for] loop ends. *)
Inductive control : Type := Continue | Break.

(** The body of the loop of [processData], run once the ticker has fired. *)
Definition processData_tick (adapter : SensorEmulatorAdapter)
    : M (control * SensorEmulatorAdapter) :=
  r ← getDataFromSensorEmulator adapter;
  match r with
  | Err err =>
      Errorf "Can't read data: %s" err;;
      ret (Continue, adapter)
  | Ok data =>
      r ← base_setData adapter data;
      match r with
      | (Some err, adapter) =>
          Errorf "Can't update data: %s" err;;
          ret (Continue, adapter)
      | (None, adapter) => ret (Continue, adapter)
      end
  end.

(** Where the refresh task stands after some ticks. *)
Inductive task : Type :=
| Running (adapter : SensorEmulatorAdapter)
| Exited (adapter : SensorEmulatorAdapter).

(** The [for] loop of [processData] over the first [ticks] firings of the
    ticker. *)
Fixpoint processData_loop (ticks : nat) (adapter : SensorEmulatorAdapter) : M task :=
  match ticks with
  | O => ret (Running adapter)
  | S ticks =>
      r ← processData_tick adapter;
      match r with
      | (Continue, adapter) => processData_loop ticks adapter
      | (Break, adapter) => ret (Exited adapter)
      end
  end.

(** [processData], observed over the first [ticks] firings: [time.NewTicker]
    panics on a period that is not positive. *)
Definition processData (ticks : nat) (adapter : SensorEmulatorAdapter) : M task :=
  if (ticker_period adapter <=? 0)%Z
  then panic "non-positive interval for NewTicker"
  else processData_loop ticks adapter.

(** ** Public functions of the adapter *)

(** [for path, value := range data { base.data[path] = &baseData{Value: value} }] *)
Definition store_initial (fetched : gmap string value)
    (store : gmap string baseData) : gmap string baseData :=
  map_fold (λ path v acc, <[path := mkBaseData v]> acc) store fetched.

(** The attribute paths created at construction, in source order. *)
Definition attribute_paths : list string :=
  [ "Attribute.Emulator.rectangle_long0";
    "Attribute.Emulator.rectangle_lat0";
    "Attribute.Emulator.rectangle_long1";
    "Attribute.Emulator.rectangle_lat1";
    "Attribute.Emulator.to_rectangle";
    "Attribute.Emulator.stop";
    "Attribute.Emulator.tire_break" ].

Definition create_attributes (store : gmap string baseData) : gmap string baseData :=
  fold_left (λ acc path, <[path := mkBaseData VNil]> acc) attribute_paths store.

(** [NewSensorEmulatorAdapter].  The error of [url.Parse(cfg.SensorURL)] is
    overwritten by the next assignment to [err] before anything reads it, so
    only the parsed URL (nil on failure) survives. *)
Definition NewSensorEmulatorAdapter (configJSON : list byte)
    : M (result SensorEmulatorAdapter) :=
  let cfg := mkConfig EmptyString defaultUpdatePeriod in
  match Unmarshal_config configJSON cfg with
  | Err err => ret (Err err)
  | Ok cfg =>
      if decide (SensorURL cfg = EmptyString)
      then ret (Err (errorString "Sensor URL should be defined"))
      else
        let sensorURL :=
          match url_Parse (SensorURL cfg) with
          | Ok u => Some u
          | Err _ => None
          end in
        match newBaseAdapter with
        | Err err => ret (Err err)
        | Ok base =>
            let base := mkBaseAdapter "SensorEmulatorAdapter" (data base) (mutex base) in
            let adapter := mkSensorEmulatorAdapter sensorURL (UpdatePeriod cfg) base in
            r ← getDataFromSensorEmulator adapter;
            match r with
            | Err err => ret (Err err)
            | Ok fetched =>
                let store := create_attributes (store_initial fetched (data base)) in
                let base := mkBaseAdapter (name base) store (mutex base) in
                let adapter := mkSensorEmulatorAdapter sensorURL (UpdatePeriod cfg) base in
                emit (EvGo "processData");;
                ret (Ok adapter)
            end
        end
  end.

Definition Lock (base : BaseAdapter) : BaseAdapter :=
  mkBaseAdapter (name base) (data base) true.

Definition Unlock (base : BaseAdapter) : BaseAdapter :=
  mkBaseAdapter (name base) (data base) false.

(** [IsPathPublic]: takes the lock, releases it on return, and answers
    [true, nil] whatever the path. *)
Definition IsPathPublic (adapter : SensorEmulatorAdapter) (path : string)
    : (bool * option error) * SensorEmulatorAdapter :=
  let locked := Lock (baseAdapter adapter) in
  let answer := (true, @None error) in
  (answer,
   mkSensorEmulatorAdapter (sensorURL adapter) (updatePeriod adapter) (Unlock locked)).

(** [SetData].  [data] lists the entries of the map in the order the loop of
    [convertVisFormatToData] visits them; the base adapter receives the map
    itself. *)
Definition SetData (adapter : SensorEmulatorAdapter) (data : list (string * value))
    : M (option error * SensorEmulatorAdapter) :=
  match convertVisFormatToData data with
  | Err err => ret (Some err, adapter)
  | Ok sendData =>
      match url_Parse "attributes/" with
      | Err err => ret (Some err, adapter)
      | Ok path =>
          address ← resolve adapter path;
          res ← Post address "application/json" sendData;
          match res with
          | Err err => ret (Some err, adapter)
          | Ok res =>
              if decide (StatusCode res ≠ 201%Z)
              then ret (Some (errorString (Status res)), adapter)
              else base_setData adapter (list_to_map data)
          end
      end
  end.

End Adapter.

Arguments Returns {Ext A} a w.
Arguments Panics {Ext A} msg w.

(** ** A small upstream for the examples

    One instance of [Externals]: a sensor emulator at
    [http://localhost:8800] whose statistics never change, that refuses one
    request in three, and that accepts a write only when it is the stop
    command.  The JSON texts the examples use are recognised by table. *)

Module Demo.

Definition bytes (s : string) : list byte :=
  Stdlib.Strings.String.list_byte_of_string s.

(** A string literal cannot hold the quotation mark: it is spliced in. *)
Definition dq : string :=
  String (Stdlib.Strings.Ascii.ascii_of_N 34) EmptyString.

Definition quoted (s : string) : string := dq +:+ s +:+ dq.

Definition base_url : string := "http://localhost:8800".

(** [{"SensorURL":"http://localhost:8800"}] *)
Definition config_plain : list byte :=
  bytes ("{" +:+ quoted "SensorURL" +:+ ":" +:+ quoted base_url +:+ "}").

(** [{"SensorURL":"http://localhost:8800","UpdatePeriod":250}] *)
Definition config_period : list byte :=
  bytes ("{" +:+ quoted "SensorURL" +:+ ":" +:+ quoted base_url +:+ ","
         +:+ quoted "UpdatePeriod" +:+ ":250}").

(** [{"SensorURL":":"}] *)
Definition config_bad_url : list byte :=
  bytes ("{" +:+ quoted "SensorURL" +:+ ":" +:+ quoted ":" +:+ "}").

(** [{"UpdatePeriod":250}] *)
Definition config_no_url : list byte :=
  bytes ("{" +:+ quoted "UpdatePeriod" +:+ ":250}").

(** [{"SensorURL"] *)
Definition config_truncated : list byte :=
  bytes ("{" +:+ quoted "SensorURL").

Definition parse (text : list byte) : result json :=
  if decide (text = config_plain)
  then Ok (JObject [("SensorURL", JString base_url)])
  else if decide (text = config_period)
  then Ok (JObject [("SensorURL", JString base_url); ("UpdatePeriod", JNumber "250")])
  else if decide (text = config_bad_url)
  then Ok (JObject [("SensorURL", JString ":")])
  else if decide (text = config_no_url)
  then Ok (JObject [("UpdatePeriod", JNumber "250")])
  else Err (SyntaxError "unexpected end of JSON input").

Definition lower (c : Stdlib.Strings.Ascii.ascii) : Stdlib.Strings.Ascii.ascii :=
  let n := Stdlib.Strings.Ascii.N_of_ascii c in
  if ((65 <=? n) && (n <=? 90))%N
  then Stdlib.Strings.Ascii.ascii_of_N (n + 32)
  else c.

Fixpoint lower_string (s : string) : string :=
  match s with
  | EmptyString => EmptyString
  | String c s' => String (lower c) (lower_string s')
  end.

Definition fold (a b : string) : bool :=
  bool_decide (lower_string a = lower_string b).

(** [{"speed":{"value":10},"door":"closed"}] *)
Definition stats_text : list byte :=
  bytes ("{" +:+ quoted "speed" +:+ ":{" +:+ quoted "value" +:+ ":10},"
         +:+ quoted "door" +:+ ":" +:+ quoted "closed" +:+ "}").

Definition stats : value :=
  VObject [("speed", VObject [("value", VNumber 10%float)]);
           ("door", VString "closed")].

Definition unmarshal (text : list byte) : result value :=
  if decide (text = stats_text) then Ok stats
  else Err (SyntaxError "unexpected end of JSON input").

(** [{"stop":true}] *)
Definition stop_text : list byte :=
  bytes ("{" +:+ quoted "stop" +:+ ":true}").

Definition encode (m : gmap string value) : list byte :=
  match map_to_list m with
  | [("stop", VBool true)] => stop_text
  | _ => bytes "{}"
  end.

Definition parse_url (s : string) : result string :=
  if HasPrefix s ":" then Err (foreignError "missing protocol scheme") else Ok s.

Definition resolve_reference (u ref : string) : string := u +:+ "/" +:+ ref.

(** The state of the network is the number of requests served so far. *)
Definition get (address : string) (served : nat) : result Response * nat :=
  (if decide (served mod 3 = 1)
   then Err (foreignError "connection refused")
   else if decide (address = base_url +:+ "/stats")
   then Ok (mkResponse 200 "200 OK" (Ok stats_text))
   else Ok (mkResponse 404 "404 Not Found" (Ok [])),
   S served).

Definition post (address contentType : string) (body : list byte) (served : nat)
    : result Response * nat :=
  (if decide (served mod 3 = 1)
   then Err (foreignError "connection refused")
   else if decide (address = base_url +:+ "/attributes/" ∧ body = stop_text)
   then Ok (mkResponse 201 "201 Created" (Ok []))
   else Ok (mkResponse 400 "400 Bad Request" (Ok [])),
   S served).

(** Modelled from the spec: the base adapter's [setData], defined in
    another file of the package, validates every path before it applies any
    update, and then overwrites the values. *)
Definition set_data (base : BaseAdapter) (updates : gmap string value)
    : BaseAdapter * option error :=
  if decide (dom updates ⊆ dom (data base))
  then (mkBaseAdapter (name base) ((mkBaseData <$> updates) ∪ data base) (mutex base),
        None)
  else (base, Some (errorString "path not found")).

#[export] Instance upstream : Externals := {|
  URL := string;
  Net := nat;
  json_parse := parse;
  fold_equal := fold;
  json_Unmarshal := unmarshal;
  json_encode := encode;
  url_Parse := parse_url;
  ResolveReference := resolve_reference;
  URL_String := id;
  http_Get := get;
  http_Post := post;
  newBaseAdapter := Ok (mkBaseAdapter EmptyString ∅ false);
  setData := set_data
|}.

(** The world after [served] requests, with what was observed. *)
Definition world_at (served : nat) (observed : list event) : world :=
  @mkWorld upstream served observed.

(** The world before anything happened. *)
Definition start : world := world_at 0 [].

(** The adapter that construction yields against this upstream, for a
    given poll period. *)
Definition built_with (period : N) : SensorEmulatorAdapter :=
  mkSensorEmulatorAdapter (Some base_url) period
    (mkBaseAdapter "SensorEmulatorAdapter"
       (create_attributes (store_initial (parseNode "Signal.Emulator" stats) ∅))
       false).

Definition built : SensorEmulatorAdapter := built_with defaultUpdatePeriod.

(** An adapter whose sensor URL is the nil pointer. *)
Definition unaddressed : SensorEmulatorAdapter :=
  mkSensorEmulatorAdapter None defaultUpdatePeriod (mkBaseAdapter EmptyString ∅ false).

(** A write whose only value is not a number JSON can express. *)
Definition nan_write : list (string * value) :=
  [("Attribute.Emulator.stop", VNumber PrimFloat.nan)].

(** The stop command, and a batch with a path outside the namespace. *)
Definition stop_write : list (string * value) :=
  [("Attribute.Emulator.stop", VBool true)].

Definition foreign_write : list (string * value) :=
  [("Attribute.Emulator.stop", VBool true); ("Foo.bar", VNil)].

(** A document in which two leaves share the path [a.b]. *)
Definition colliding : value :=
  VObject [("a.b", VString "x"); ("a", VObject [("b", VString "y")])].

End Demo.

(** ** Notions for the properties of the whole adapter *)

(** [reordered D D']: [D'] is [D] with the entries of some of its objects,
    at any depth, listed in another order; the two stand for the same Go
    value, ranged over differently. *)
Inductive reordered : value → value → Prop :=
| reordered_same (v : value) : reordered v v
| reordered_then (u v w : value) : reordered u v → reordered v w → reordered u w
| reordered_entries (m m' : list (string * value)) :
    m ≡ₚ m' → reordered (VObject m) (VObject m')
| reordered_inside (before after : list (string * value)) (key : string)
    (v v' : value) :
    reordered v v' →
    reordered (VObject (before ++ (key, v) :: after))
              (VObject (before ++ (key, v') :: after)).

(** A flat map with [p] put in front of every key. *)
Definition prefixed (p : string) (m : gmap string value) : gmap string value :=
  kmap (M2 := gmap string) (String.append p) m.

(** The kinds of events. *)
Definition is_get (e : event) : bool :=
  match e with EvGet _ => true | _ => false end.

Definition is_post (e : event) : bool :=
  match e with EvPost _ _ _ => true | _ => false end.

Definition is_setData (e : event) : bool :=
  match e with EvSetData _ => true | _ => false end.

Definition is_log (e : event) : bool :=
  match e with EvLogError _ _ => true | _ => false end.

Definition is_go (e : event) : bool :=
  match e with EvGo _ => true | _ => false end.

(** How many events of a kind a stretch of the trace holds. *)
Fixpoint count_events (kind : event → bool) (evs : list event) : nat :=
  match evs with
  | [] => 0
  | e :: evs => (if kind e then 1 else 0) + count_events kind evs
  end.

(** The largest poll period, in milliseconds, whose count of nanoseconds
    still fits an [int64]. *)
Definition max_period : N := 9223372036854.

(** Further sample data for the example upstream. *)
Module Samples.

(** The statistics of the example upstream, ranged over in another order. *)
Definition stats_reordered : value :=
  VObject [("door", VString "closed");
           ("speed", VObject [("value", VNumber 10%float)])].

(** The colliding document, ranged over in the other order. *)
Definition colliding_reordered : value :=
  VObject [("a", VObject [("b", VString "y")]); ("a.b", VString "x")].

(** A write of two attributes, in the two orders [range] may take. *)
Definition two_writes : list (string * value) :=
  [("Attribute.Emulator.stop", VBool true);
   ("Attribute.Emulator.tire_break", VBool false)].

Definition two_writes_reordered : list (string * value) :=
  [("Attribute.Emulator.tire_break", VBool false);
   ("Attribute.Emulator.stop", VBool true)].

(** A signal as the refresh stores it, offered back as a write. *)
Definition signal_write : list (string * value) :=
  [("Signal.Emulator.door", VString "open")].

End Samples.

(** ** Facts about strings *)

Module GoStringsFacts.

Lemma append_nil (b : string) : EmptyString +:+ b = b.
Proof. reflexivity. Qed.

Lemma append_cons (x : Stdlib.Strings.Ascii.ascii) (a b : string) :
  String x a +:+ b = String x (a +:+ b).
Proof. reflexivity. Qed.

Lemma append_assoc (a b c : string) : (a +:+ b) +:+ c = a +:+ (b +:+ c).
Proof.
  induction a as [|x a IH]; [reflexivity |].
  now rewrite !append_cons, IH.
Qed.

Lemma length_append (a b : string) :
  strlen (a +:+ b) = strlen a + strlen b.
Proof.
  induction a as [|x a IH]; [reflexivity |].
  rewrite append_cons. simpl. now rewrite IH.
Qed.

Lemma substring_all (s : string) : substring 0 (strlen s) s = s.
Proof. induction s as [|x s IH]; simpl; [reflexivity | now rewrite IH]. Qed.

Lemma substring_head (p r : string) :
  substring 0 (strlen p) (p +:+ r) = p.
Proof.
  induction p as [|x p IH].
  - rewrite append_nil. now destruct r.
  - rewrite append_cons. simpl. now rewrite IH.
Qed.

Lemma substring_tail (p r : string) (n : nat) :
  substring (strlen p) n (p +:+ r) = substring 0 n r.
Proof.
  induction p as [|x p IH]; [reflexivity |].
  rewrite append_cons. simpl. exact IH.
Qed.

Lemma substring_split (n : nat) (s : string) :
  (n ≤ strlen s)%nat →
  s = substring 0 n s +:+ substring n (strlen s - n) s.
Proof.
  revert s; induction n as [|n IH]; intros s Hn.
  - rewrite Nat.sub_0_r, substring_all. now destruct s.
  - destruct s as [|x s]; simpl in *; [lia |].
    rewrite append_cons. f_equal. apply IH. lia.
Qed.

Lemma HasPrefix_append (p r : string) : HasPrefix (p +:+ r) p = true.
Proof.
  unfold HasPrefix. rewrite substring_head, Stdlib.Strings.String.eqb_refl, length_append.
  rewrite andb_true_r. apply Nat.leb_le. lia.
Qed.

Lemma HasPrefix_inv (s p : string) :
  HasPrefix s p = true → ∃ r, s = p +:+ r.
Proof.
  unfold HasPrefix. intros [Hlen Heq]%andb_true_iff.
  apply Nat.leb_le in Hlen. apply Stdlib.Strings.String.eqb_eq in Heq.
  exists (substring (strlen p) (strlen s - strlen p) s).
  rewrite <- Heq at 1. now apply substring_split.
Qed.

Lemma HasPrefix_iff (s p : string) :
  HasPrefix s p = true ↔ ∃ r, s = p +:+ r.
Proof.
  split; [apply HasPrefix_inv |]. intros [r ->]. apply HasPrefix_append.
Qed.

Lemma HasPrefix_refl (s : string) : HasPrefix s s = true.
Proof.
  apply HasPrefix_iff. exists EmptyString.
  induction s as [|x s IH]; [reflexivity |].
  rewrite append_cons. congruence.
Qed.

Lemma HasPrefix_trans (s p q : string) :
  HasPrefix s p = true → HasPrefix p q = true → HasPrefix s q = true.
Proof.
  intros [r ->]%HasPrefix_iff [r' ->]%HasPrefix_iff.
  rewrite append_assoc. apply HasPrefix_append.
Qed.

Lemma TrimPrefix_append (p r : string) : TrimPrefix (p +:+ r) p = r.
Proof.
  unfold TrimPrefix. rewrite HasPrefix_append, substring_tail, length_append.
  replace (strlen p + strlen r - strlen p)
    with (strlen r) by lia.
  apply substring_all.
Qed.

Lemma append_inj_l (p a b : string) : p +:+ a = p +:+ b → a = b.
Proof.
  induction p as [|x p IH]; [auto |].
  rewrite !append_cons. intros [= H]; auto.
Qed.

End GoStringsFacts.

Import GoStringsFacts.

(** ** Properties of the codec *)

Lemma copy_into_union (src dst : gmap string value) :
  copy_into src dst = src ∪ dst.
Proof.
  unfold copy_into.
  apply (map_fold_weak_ind (λ r m, r = m ∪ dst)).
  - now rewrite (left_id_L ∅ (∪)).
  - intros i x m r _ ->. now rewrite insert_union_l.
Qed.

Lemma parseNode_object (prefix : string) (m : list (string * value)) :
  parseNode prefix (VObject m) = parseNode_range prefix m ∅.
Proof.
  unfold parseNode_range. simpl.
  generalize (∅ : gmap string value).
  induction m as [|[path v] rest IH]; intros acc; simpl; [reflexivity | apply IH].
Qed.

Lemma parseNode_leaf (prefix : string) (element : value) :
  is_object element = false → parseNode prefix element = {[ prefix := element ]}.
Proof. destruct element; simpl; intros; congruence. Qed.

Lemma leaves_object (prefix : string) (m : list (string * value)) :
  leaves prefix (VObject m)
  = concat (map (λ kv, leaves (prefix +:+ "." +:+ kv.1) kv.2) m).
Proof.
  simpl. induction m as [|[path v] rest IH]; simpl; [reflexivity | now rewrite IH].
Qed.

Lemma map_union_list_app (l1 l2 : list (gmap string value)) :
  ⋃ (l1 ++ l2) = ⋃ l1 ∪ ⋃ l2.
Proof.
  induction l1 as [|m l1 IH]; simpl.
  - now rewrite (left_id_L ∅ (∪)).
  - now rewrite IH, (assoc_L (∪)).
Qed.

Lemma parseNode_range_union (prefix : string) (m : list (string * value))
    (visData : gmap string value) :
  parseNode_range prefix m visData
  = ⋃ (reverse (map (λ kv, parseNode (prefix +:+ "." +:+ kv.1) kv.2) m)) ∪ visData.
Proof.
  unfold parseNode_range. revert visData.
  induction m as [|[path v] rest IH]; intros visData; simpl.
  - now rewrite (left_id_L ∅ (∪)).
  - rewrite IH, copy_into_union, reverse_cons.
    rewrite map_union_list_app. simpl.
    rewrite (right_id_L ∅ (∪)). now rewrite (assoc_L (∪)).
Qed.

Lemma parseNode_object_union (prefix : string) (m : list (string * value)) :
  parseNode prefix (VObject m)
  = ⋃ (reverse (map (λ kv, parseNode (prefix +:+ "." +:+ kv.1) kv.2) m)).
Proof.
  rewrite parseNode_object, parseNode_range_union.
  now rewrite (right_id_L ∅ (∪)).
Qed.

Lemma lookup_map_union_list (l : list (gmap string value)) (k : string) (x : value) :
  (⋃ l) !! k = Some x → ∃ m, m ∈ l ∧ m !! k = Some x.
Proof.
  induction l as [|m l IH]; simpl.
  - now rewrite lookup_empty.
  - intros [H | [_ H]]%lookup_union_Some_raw.
    + exists m. split; [left | done].
    + destruct (IH H) as (m' & Hin & Hm'). exists m'. split; [now right | done].
Qed.

Lemma is_Some_map_union_list (l : list (gmap string value)) (k : string) :
  is_Some ((⋃ l) !! k) ↔ ∃ m, m ∈ l ∧ is_Some (m !! k).
Proof.
  induction l as [|m l IH]; simpl.
  - rewrite lookup_empty. split; [intros [? [=]] |].
    intros (m & Hin & _). inversion Hin.
  - rewrite lookup_union_is_Some, IH. split.
    + intros [H | (m' & Hin & H)].
      * exists m. split; [left | done].
      * exists m'. split; [now right | done].
    + intros (m' & Hin & H). inversion Hin; subst; [now left |].
      right. now exists m'.
Qed.

(** The flattened map is the list of leaves read as a map in which, among
    leaves with the same path, the one visited last stays. *)
Lemma parseNode_leaves (element : value) :
  ∀ prefix, parseNode prefix element = list_to_map (reverse (leaves prefix element)).
Proof.
  induction element as [| b | f | s | l _ | m IH] using value_nested_ind;
    intros prefix; try (simpl; now rewrite insert_empty).
  rewrite parseNode_object_union, leaves_object.
  induction m as [|[path v] rest IHrest]; [reflexivity |].
  inversion IH as [|? ? Hv Hrest]; subst. simpl in *.
  rewrite reverse_cons, map_union_list_app, reverse_app, list_to_map_app.
  rewrite (IHrest Hrest). simpl.
  now rewrite (right_id_L ∅ (∪)), Hv.
Qed.

(** C4: on an object [parseNode] is the union, entry by entry, of the
    flattening of each sub-value under [prefix + "." + key] (where two entries
    give the same path, the entry visited later decides the value); on
    anything else it is the single-entry map from [prefix] to the node. *)
Theorem parseNode_recursive_union (prefix : string) (element : value) :
  match element with
  | VObject m =>
      let parts := map (λ kv, parseNode (prefix +:+ "." +:+ kv.1) kv.2) m in
      parseNode prefix element = ⋃ (reverse parts)
      ∧ (∀ k, is_Some (parseNode prefix element !! k)
              ↔ ∃ part, part ∈ parts ∧ is_Some (part !! k))
      ∧ (∀ k x, parseNode prefix element !! k = Some x
                → ∃ part, part ∈ parts ∧ part !! k = Some x)
  | _ => parseNode prefix element = {[ prefix := element ]}
  end.
Proof.
  destruct element as [| b | f | s | l | m]; try reflexivity.
  cbv zeta. rewrite parseNode_object_union. split; [reflexivity | split].
  - intros k. rewrite is_Some_map_union_list.
    split; intros (part & Hin & H); exists part; (split; [| done]).
    + by apply elem_of_reverse.
    + by apply elem_of_reverse.
  - intros k x H. apply lookup_map_union_list in H as (part & Hin & H).
    exists part. split; [by apply elem_of_reverse | done].
Qed.

(** C10: an empty object flattens to the empty map, and an entry whose
    value is an empty object adds nothing to the flattening of the object
    around it. *)
Theorem parseNode_empty_object (prefix : string) :
  parseNode prefix (VObject []) = ∅
  ∧ ∀ (before after : list (string * value)) (key : string),
      parseNode prefix (VObject (before ++ (key, VObject []) :: after))
      = parseNode prefix (VObject (before ++ after)).
Proof.
  split; [reflexivity |].
  intros before after key. rewrite !parseNode_object_union.
  rewrite !map_app, !reverse_app. simpl. rewrite reverse_cons.
  rewrite !map_union_list_app. simpl.
  now rewrite (left_id_L ∅ (∪)), (right_id_L ∅ (∪)).
Qed.

Lemma parseNode_key (element : value) :
  ∀ prefix k, is_Some (parseNode prefix element !! k) →
    k = prefix ∨ HasPrefix k (prefix +:+ ".") = true.
Proof.
  induction element as [| b | f | s | l _ | m IH] using value_nested_ind;
    intros prefix k;
    try (simpl; intros [x [-> _]%lookup_singleton_Some]; now left).
  rewrite parseNode_object_union, is_Some_map_union_list.
  intros (part & Hin & Hk). right.
  apply elem_of_reverse, list_elem_of_fmap in Hin as ([path v] & -> & Hin).
  rewrite Forall_forall in IH. specialize (IH _ Hin _ _ Hk). simpl in IH.
  destruct IH as [-> | IH].
  - apply HasPrefix_iff. exists path. now rewrite append_assoc.
  - eapply HasPrefix_trans; [exact IH |].
    apply HasPrefix_iff. exists (path +:+ "."). now rewrite !append_assoc.
Qed.

(** C9: every key of [parseNode prefix element] is [prefix] itself or
    starts with [prefix + "."]; so every key that [convertDataToVisFormat]
    produces from an upstream document starts with ["Signal.Emulator"]. *)
Theorem parseNode_keys_under_prefix :
  (∀ (prefix : string) (element : value) (k : string),
     is_Some (parseNode prefix element !! k) →
     k = prefix ∨ HasPrefix k (prefix +:+ ".") = true)
  ∧ (∀ (Ext : Externals) (dataJSON : list byte) (visData : gmap string value)
       (k : string),
       convertDataToVisFormat dataJSON = Ok visData →
       is_Some (visData !! k) →
       HasPrefix k "Signal.Emulator" = true).
Proof.
  split.
  - intros prefix element k. apply parseNode_key.
  - intros Ext dataJSON visData k. unfold convertDataToVisFormat.
    destruct (json_Unmarshal dataJSON) as [data | err]; [| discriminate].
    intros [= <-] [-> | Hk]%parseNode_key.
    + apply HasPrefix_refl.
    + eapply HasPrefix_trans; [exact Hk |]. apply HasPrefix_append.
Qed.

Lemma parseNode_keys_under_prefix_witness :
  (is_Some (parseNode "Signal" Demo.stats !! "Signal.door")
   ∧ ("Signal.door" = "Signal" ∨ HasPrefix "Signal.door" ("Signal" +:+ ".") = true))
  ∧ (@convertDataToVisFormat Demo.upstream Demo.stats_text
       = Ok (parseNode "Signal.Emulator" Demo.stats)
     ∧ is_Some (parseNode "Signal.Emulator" Demo.stats !! "Signal.Emulator.speed.value")
     ∧ HasPrefix "Signal.Emulator.speed.value" "Signal.Emulator" = true).
Proof.
  assert (H1 : is_Some (parseNode "Signal" Demo.stats !! "Signal.door"))
    by (vm_compute; eexists; reflexivity).
  assert (H2 : @convertDataToVisFormat Demo.upstream Demo.stats_text
               = Ok (parseNode "Signal.Emulator" Demo.stats))
    by (vm_compute; reflexivity).
  assert (H3 : is_Some (parseNode "Signal.Emulator" Demo.stats
                          !! "Signal.Emulator.speed.value"))
    by (vm_compute; eexists; reflexivity).
  split; [split; [exact H1 |] | split; [exact H2 | split; [exact H3 |]]].
  - exact (proj1 parseNode_keys_under_prefix _ _ _ H1).
  - exact (proj2 parseNode_keys_under_prefix _ _ _ _ H2 H3).
Defined.

(** C3, as stated, fails: in a document where two leaves have the same
    dot-joined path ([{"a.b": "x", "a": {"b": "y"}}]) the flattened map holds
    one value for the two of them, and the leaf visited first is lost. *)
Lemma flatten_loses_leaf_on_equal_paths :
  wf_value Demo.colliding = true
  ∧ (leaves "Signal.Emulator" Demo.colliding).*2 = [VString "x"; VString "y"]
  ∧ (map_to_list (parseNode "Signal.Emulator" Demo.colliding)).*2 = [VString "y"]
  ∧ ¬ ((map_to_list (parseNode "Signal.Emulator" Demo.colliding)).*2
       ≡ₚ (leaves "Signal.Emulator" Demo.colliding).*2).
Proof.
  split; [vm_compute; reflexivity |].
  split; [vm_compute; reflexivity |].
  split; [vm_compute; reflexivity |].
  intros H. apply Permutation_length in H. vm_compute in H. discriminate.
Qed.

Lemma parseNode_entries (prefix : string) (D : value) :
  map_to_list (parseNode prefix D) ≡ₚ leaves prefix D
  ↔ NoDup (leaves prefix D).*1.
Proof.
  split.
  - intros H. rewrite <- H. apply NoDup_fst_map_to_list.
  - intros H. rewrite parseNode_leaves.
    rewrite map_to_list_to_map.
    + apply reverse_Permutation.
    + now rewrite reverse_Permutation.
Qed.

(** C3, amended: the entries of [parseNode prefix D] are exactly the leaves
    of [D] with their paths, each once, if and only if the dot-joined paths
    of the leaves of [D] are pairwise distinct; then no leaf value is
    dropped and none is duplicated. *)
Theorem flatten_keeps_leaves_iff_paths_distinct (prefix : string) (D : value) :
  (map_to_list (parseNode prefix D) ≡ₚ leaves prefix D
   ↔ NoDup (leaves prefix D).*1)
  ∧ (NoDup (leaves prefix D).*1 →
     (map_to_list (parseNode prefix D)).*2 ≡ₚ (leaves prefix D).*2
     ∧ size (parseNode prefix D) = length (leaves prefix D)).
Proof.
  split; [apply parseNode_entries |].
  intros H%parseNode_entries. split.
  - now rewrite H.
  - now rewrite <- length_map_to_list, H.
Qed.

Lemma flatten_keeps_leaves_iff_paths_distinct_witness :
  NoDup (leaves "Signal.Emulator" Demo.stats).*1
  ∧ (map_to_list (parseNode "Signal.Emulator" Demo.stats)).*2
    ≡ₚ (leaves "Signal.Emulator" Demo.stats).*2
  ∧ size (parseNode "Signal.Emulator" Demo.stats)
    = length (leaves "Signal.Emulator" Demo.stats).
Proof.
  assert (H : NoDup (leaves "Signal.Emulator" Demo.stats).*1)
    by (apply (bool_decide_unpack _); vm_compute; exact I).
  split; [exact H |].
  exact (proj2 (flatten_keeps_leaves_iff_paths_distinct _ _) H).
Defined.

(** ** Documents whose keys have no dot *)

Lemma dot_string : "." = String dot EmptyString.
Proof. reflexivity. Qed.

Lemma dot_free_cons (c : Stdlib.Strings.Ascii.ascii) (rest : string) :
  dot_free (String c rest) = true ↔ c ≠ dot ∧ dot_free rest = true.
Proof.
  simpl. rewrite andb_true_iff, negb_true_iff.
  now rewrite <- not_true_iff_false, Stdlib.Strings.Ascii.eqb_eq.
Qed.

(** A dot-free key is cut off by the first dot that follows it. *)
Lemma dot_free_split (a b x y : string) :
  dot_free a = true → dot_free b = true →
  a +:+ "." +:+ x = b +:+ "." +:+ y → a = b.
Proof.
  revert b. induction a as [|c a IH]; intros [|d b] Ha Hb Heq;
    rewrite dot_string in Heq;
    repeat (rewrite append_nil in Heq || rewrite append_cons in Heq).
  - reflexivity.
  - injection Heq as <- _. now apply dot_free_cons in Hb as [[] _].
  - injection Heq as -> _. now apply dot_free_cons in Ha as [[] _].
  - injection Heq as -> Heq.
    apply dot_free_cons in Ha as [_ Ha]. apply dot_free_cons in Hb as [_ Hb].
    f_equal. apply (IH b Ha Hb). exact Heq.
Qed.

Lemma dot_free_no_dot (a b y : string) :
  dot_free a = true → a ≠ b +:+ "." +:+ y.
Proof.
  revert a. induction b as [|d b IH]; intros [|c a] Ha Heq;
    rewrite dot_string in Heq;
    repeat (rewrite append_nil in Heq || rewrite append_cons in Heq);
    try discriminate.
  - injection Heq as -> _. now apply dot_free_cons in Ha as [[] _].
  - injection Heq as -> Heq. apply dot_free_cons in Ha as [_ Ha].
    apply (IH a Ha). exact Heq.
Qed.

Lemma wf_value_object (m : list (string * value)) :
  wf_value (VObject m) = true →
  NoDup m.*1 ∧ Forall (λ kv, wf_value kv.2 = true) m.
Proof.
  simpl. intros [Hnd Hall]%andb_true_iff. split.
  - now apply bool_decide_eq_true in Hnd.
  - clear Hnd. induction m as [|[key x] m IH]; [constructor |].
    apply andb_true_iff in Hall as [Hx Hall]. constructor; [exact Hx | now apply IH].
Qed.

Lemma keys_dot_free_object (m : list (string * value)) :
  keys_dot_free (VObject m) = true →
  Forall (λ kv, dot_free kv.1 = true ∧ keys_dot_free kv.2 = true) m.
Proof.
  simpl. induction m as [|[key x] m IH]; [constructor |].
  intros [[Hkey Hx]%andb_true_iff Hall]%andb_true_iff.
  constructor; [now split | now apply IH].
Qed.

Lemma leaves_key (prefix : string) (element : value) (k : string) :
  k ∈ (leaves prefix element).*1 →
  k = prefix ∨ ∃ r, k = (prefix +:+ ".") +:+ r.
Proof.
  intros Hin.
  assert (Hdom : k ∈ dom (parseNode prefix element)).
  { rewrite parseNode_leaves, dom_list_to_map_L, elem_of_list_to_set.
    now rewrite fmap_reverse, elem_of_reverse. }
  apply elem_of_dom, parseNode_key in Hdom as [-> | Hk]; [now left |].
  right. now apply HasPrefix_iff.
Qed.

(** Two entries of one object with different dot-free keys share no path. *)
Lemma leaves_apart (prefix key1 key2 k : string) (v1 v2 : value) :
  dot_free key1 = true → dot_free key2 = true → key1 ≠ key2 →
  k ∈ (leaves (prefix +:+ "." +:+ key1) v1).*1 →
  k ∈ (leaves (prefix +:+ "." +:+ key2) v2).*1 →
  False.
Proof.
  intros H1 H2 Hne [-> | [r1 ->]]%leaves_key [Heq | [r2 Heq]]%leaves_key.
  - apply append_inj_l, append_inj_l in Heq. congruence.
  - rewrite !append_assoc in Heq. apply append_inj_l, append_inj_l in Heq.
    now apply dot_free_no_dot in Heq.
  - rewrite !append_assoc in Heq. apply append_inj_l, append_inj_l in Heq.
    symmetry in Heq. now apply dot_free_no_dot in Heq.
  - rewrite !append_assoc in Heq. apply append_inj_l, append_inj_l in Heq.
    apply Hne. now apply (dot_free_split key1 key2 r1 r2).
Qed.

(** When no key has a dot in it and the keys of every object are distinct,
    as they are in a Go map, the dot-joined paths of the leaves are pairwise
    distinct, and the flattened map holds every leaf of the document under
    its path: as many entries as leaves, no value dropped, none twice. *)
Theorem flatten_dot_free_document (D : value) :
  wf_value D = true → keys_dot_free D = true →
  ∀ prefix,
    NoDup (leaves prefix D).*1
    ∧ map_to_list (parseNode prefix D) ≡ₚ leaves prefix D.
Proof.
  intros Hwf Hfree prefix.
  assert (Hnd : NoDup (leaves prefix D).*1); [| split; [exact Hnd |]].
  2:{ now apply parseNode_entries. }
  revert prefix Hwf Hfree.
  induction D as [| b | f | s | l _ | m IH] using value_nested_ind;
    intros prefix Hwf Hfree; try (simpl; apply NoDup_singleton).
  apply wf_value_object in Hwf as [Hkeys Hwf].
  apply keys_dot_free_object in Hfree.
  rewrite leaves_object.
  induction m as [|[key x] m IHm]; [constructor |].
  inversion IH as [|? ? IHx IHrest]; subst.
  inversion Hwf as [|? ? Hwfx Hwfrest]; subst.
  inversion Hfree as [|? ? [Hkey Hfreex] Hfreerest]; subst.
  rewrite fmap_cons in Hkeys. apply NoDup_cons in Hkeys as [Hfresh Hkeys].
  simpl in *. rewrite fmap_app. apply NoDup_app. split; [| split].
  - now apply IHx.
  - intros k Hk Hk'.
    apply list_elem_of_fmap in Hk' as ([k' v'] & -> & Hin).
    apply list_elem_of_In, in_concat in Hin as (part & Hpart & Hin).
    apply in_map_iff in Hpart as ([key' x'] & <- & Hentry).
    apply list_elem_of_In in Hin, Hentry.
    rewrite Forall_forall in Hfreerest.
    destruct (Hfreerest _ Hentry) as [Hkey' _]. simpl in *.
    apply (leaves_apart prefix key key' k' x x' Hkey Hkey'); [| exact Hk |].
    + intros ->. apply Hfresh. apply list_elem_of_fmap. now exists (key', x').
    + apply list_elem_of_fmap. now exists (k', v').
  - now apply IHm.
Qed.

Lemma flatten_dot_free_document_witness :
  wf_value Demo.stats = true
  ∧ keys_dot_free Demo.stats = true
  ∧ NoDup (leaves "Signal.Emulator" Demo.stats).*1
  ∧ map_to_list (parseNode "Signal.Emulator" Demo.stats)
    ≡ₚ leaves "Signal.Emulator" Demo.stats.
Proof.
  assert (H1 : wf_value Demo.stats = true) by (vm_compute; reflexivity).
  assert (H2 : keys_dot_free Demo.stats = true) by (vm_compute; reflexivity).
  split; [exact H1 | split; [exact H2 |]].
  exact (flatten_dot_free_document Demo.stats H1 H2 "Signal.Emulator").
Defined.

(** ** Properties of the write path *)

Section WritePath.
Context `{Ext : Externals}.

Lemma convert_range_accepts (visData : list (string * value)) :
  ∀ sendData,
    Forall (λ kv, HasPrefix kv.1 "Attribute.Emulator." = true) visData →
    convert_range visData sendData = Ok (stripped visData sendData).
Proof.
  induction visData as [|[path v] rest IH]; intros sendData Hall; [reflexivity |].
  inversion Hall as [|? ? Hpath Hrest]; subst. simpl in *.
  rewrite Hpath. now apply IH.
Qed.

Lemma convert_range_refuses (visData : list (string * value)) :
  ∀ sendData,
    ¬ Forall (λ kv, HasPrefix kv.1 "Attribute.Emulator." = true) visData →
    ∃ path, path ∈ visData.*1
      ∧ HasPrefix path "Attribute.Emulator." = false
      ∧ convert_range visData sendData
        = Err (errorString ("Path " +:+ path +:+ " does not exist")).
Proof.
  induction visData as [|[path v] rest IH]; intros sendData Hnot.
  - destruct Hnot. constructor.
  - simpl. destruct (HasPrefix path "Attribute.Emulator.") eqn:Hpath.
    + destruct (IH (<[TrimPrefix path "Attribute.Emulator." := v]> sendData))
        as (bad & Hin & Hbad & Hres).
      * intros Hrest. apply Hnot. now constructor.
      * exists bad. split; [now right | done].
    + exists path. split; [left | done].
Qed.

Lemma stripped_cons (path : string) (x : value) (rest : list (string * value))
    (sendData : gmap string value) :
  stripped ((path, x) :: rest) sendData
  = stripped rest (<[TrimPrefix path "Attribute.Emulator." := x]> sendData).
Proof. reflexivity. Qed.

Lemma stripped_lookup (visData : list (string * value)) :
  ∀ sendData k v,
    Forall (λ kv, HasPrefix kv.1 "Attribute.Emulator." = true) visData →
    NoDup visData.*1 →
    stripped visData sendData !! k = Some v
    ↔ ("Attribute.Emulator." +:+ k, v) ∈ visData
      ∨ ((("Attribute.Emulator." +:+ k) ∉ visData.*1) ∧ sendData !! k = Some v).
Proof.
  induction visData as [|[path x] rest IH]; intros sendData k v Hall Hnd.
  - split; [intros H; right; split; [apply not_elem_of_nil | done] |].
    intros [H | [_ H]]; [inversion H | done].
  - inversion Hall as [|? ? Hpath Hrest]; subst.
    rewrite fmap_cons in Hnd. apply NoDup_cons in Hnd as [Hfresh Hnd].
    apply HasPrefix_iff in Hpath as [suffix Hpath]. simpl in Hpath, Hfresh. subst path.
    rewrite stripped_cons, (IH _ _ _ Hrest Hnd), TrimPrefix_append.
    rewrite fmap_cons, !elem_of_cons. simpl.
    destruct (decide (suffix = k)) as [-> | Hne].
    + rewrite lookup_insert_eq. naive_solver.
    + rewrite lookup_insert_ne by done.
      assert ("Attribute.Emulator." +:+ k ≠ "Attribute.Emulator." +:+ suffix)
        by (intros Heq%append_inj_l; congruence).
      naive_solver.
Qed.

Lemma SetData_refused (adapter : SensorEmulatorAdapter)
    (data : list (string * value)) (err : error) (w : world) :
  convertVisFormatToData data = Err err →
  SetData adapter data w = Returns (Some err, adapter) w.
Proof. unfold SetData. now intros ->. Qed.

Lemma stripped_supported (visData : list (string * value)) :
  ∀ sendData,
    Forall (λ kv, marshal_supported kv.2 = true) visData →
    map_Forall (λ _ v, marshal_supported v = true) sendData →
    map_Forall (λ _ v, marshal_supported v = true) (stripped visData sendData).
Proof.
  induction visData as [|[path x] rest IH]; intros sendData Hall Hsend; [done |].
  inversion Hall as [|? ? Hx Hrest]; subst.
  rewrite stripped_cons. apply IH; [done |]. now apply map_Forall_insert_2.
Qed.

Lemma json_Marshal_supported (sendData : gmap string value) :
  map_Forall (λ _ v, marshal_supported v = true) sendData →
  json_Marshal sendData = Ok (json_encode sendData).
Proof.
  intros Hall. unfold json_Marshal.
  replace (forallb (λ kv, marshal_supported kv.2) (map_to_list sendData)) with true;
    [reflexivity |].
  symmetry. apply forallb_forall. intros [k v] Hin.
  apply (Hall k v). apply elem_of_map_to_list. now apply list_elem_of_In.
Qed.

Lemma json_Marshal_unsupported (sendData : gmap string value) (k : string) (v : value) :
  sendData !! k = Some v → marshal_supported v = false →
  json_Marshal sendData = Err UnsupportedValueError.
Proof.
  intros Hk Hv. unfold json_Marshal.
  destruct (forallb (λ kv, marshal_supported kv.2) (map_to_list sendData)) eqn:Hall;
    [| reflexivity].
  rewrite forallb_forall in Hall.
  specialize (Hall (k, v)). simpl in Hall. rewrite Hall in Hv; [discriminate |].
  now apply list_elem_of_In, elem_of_map_to_list.
Qed.

(** C2, amended: when every key begins with ["Attribute.Emulator."] the
    loop accepts the batch and sends every value under its key without the
    prefix (one flat key, never re-nested), and the conversion returns what
    [json.Marshal] makes of that map: its JSON text when every value is one
    [json.Marshal] supports, its error when some value is not.  When some
    key lacks the prefix the conversion fails with an error naming such a
    key, and [SetData] returns that error with the world untouched: nothing
    is sent upstream. *)
Theorem convertVisFormatToData_whole_batch (visData : list (string * value)) :
  (Forall (λ kv, HasPrefix kv.1 "Attribute.Emulator." = true) visData →
   convert_range visData ∅ = Ok (stripped visData ∅)
   ∧ convertVisFormatToData visData = json_Marshal (stripped visData ∅)
   ∧ (NoDup visData.*1 →
      ∀ k v, stripped visData ∅ !! k = Some v
             ↔ ("Attribute.Emulator." +:+ k, v) ∈ visData)
   ∧ (Forall (λ kv, marshal_supported kv.2 = true) visData →
      convertVisFormatToData visData = Ok (json_encode (stripped visData ∅)))
   ∧ (NoDup visData.*1 →
      ¬ Forall (λ kv, marshal_supported kv.2 = true) visData →
      convertVisFormatToData visData = Err UnsupportedValueError))
  ∧ (¬ Forall (λ kv, HasPrefix kv.1 "Attribute.Emulator." = true) visData →
     ∃ path, path ∈ visData.*1
       ∧ HasPrefix path "Attribute.Emulator." = false
       ∧ convertVisFormatToData visData
         = Err (errorString ("Path " +:+ path +:+ " does not exist"))
       ∧ ∀ adapter w,
           SetData adapter visData w
           = Returns (Some (errorString ("Path " +:+ path +:+ " does not exist")),
                      adapter) w).
Proof.
  split.
  - intros Hall.
    assert (Hconv : convertVisFormatToData visData = json_Marshal (stripped visData ∅))
      by (unfold convertVisFormatToData; now rewrite convert_range_accepts).
    split; [now apply convert_range_accepts | split; [exact Hconv | split]].
    + intros Hnd k v. rewrite (stripped_lookup _ _ _ _ Hall Hnd), lookup_empty.
      naive_solver.
    + split.
      * intros Hsup. rewrite Hconv. apply json_Marshal_supported.
        apply stripped_supported; [done | apply map_Forall_empty].
      * intros Hnd Hsup. rewrite Hconv.
        apply not_Forall_Exists in Hsup; [| intros kv; apply _].
        apply Exists_exists in Hsup as ([path v] & Hin & Hv). simpl in Hv.
        apply not_true_is_false in Hv.
        assert (Hpath : HasPrefix path "Attribute.Emulator." = true)
          by (rewrite Forall_forall in Hall; exact (Hall _ Hin)).
        apply HasPrefix_iff in Hpath as [suffix ->].
        apply (json_Marshal_unsupported _ suffix v); [| exact Hv].
        apply (stripped_lookup _ _ _ _ Hall Hnd). now left.
  - intros Hnot.
    destruct (convert_range_refuses visData ∅ Hnot) as (path & Hin & Hbad & Hres).
    assert (Herr : convertVisFormatToData visData
                   = Err (errorString ("Path " +:+ path +:+ " does not exist")))
      by (unfold convertVisFormatToData; now rewrite Hres).
    exists path. split; [done | split; [done | split; [done |]]].
    intros adapter w. now apply SetData_refused.
Qed.

(** C1: what [SetData] does on an adapter with a sensor URL, case by case.
    When the conversion fails, or [attributes/] does not parse, it returns
    that error and the world and the adapter are as before: nothing is
    posted.  Otherwise it posts the converted batch once, as
    [application/json], to [attributes/] resolved against the sensor URL,
    before anything else.  On a transport error it returns that error, and
    on a status other than 201 an error that carries the status text; in
    both cases the adapter is unchanged and the base adapter is never
    called.  On 201, and only then, the base adapter's [setData] runs once,
    after the POST, on the caller's map, and its store and its error are
    what [SetData] returns. *)
Theorem SetData_posts_before_commit (adapter : SensorEmulatorAdapter)
    (data : list (string * value)) (w : world) (u : URL) :
  sensorURL adapter = Some u →
  match convertVisFormatToData data with
  | Err e => SetData adapter data w = Returns (Some e, adapter) w
  | Ok sendData =>
      match url_Parse "attributes/" with
      | Err e => SetData adapter data w = Returns (Some e, adapter) w
      | Ok path =>
          let address := URL_String (ResolveReference u path) in
          let posted := http_Post address "application/json" sendData (net w) in
          let post := EvPost address "application/json" sendData in
          match posted.1 with
          | Err e =>
              SetData adapter data w
              = Returns (Some e, adapter) (mkWorld posted.2 (trace w ++ [post]))
          | Ok res =>
              if decide (StatusCode res = 201%Z)
              then
                SetData adapter data w
                = Returns
                    ((setData (baseAdapter adapter) (list_to_map data)).2,
                     mkSensorEmulatorAdapter (sensorURL adapter)
                       (updatePeriod adapter)
                       (setData (baseAdapter adapter) (list_to_map data)).1)
                    (mkWorld posted.2
                       (trace w ++ [post; EvSetData (list_to_map data)]))
              else
                SetData adapter data w
                = Returns (Some (errorString (Status res)), adapter)
                    (mkWorld posted.2 (trace w ++ [post]))
          end
      end
  end.
Proof.
  intros Hurl. unfold SetData.
  destruct (convertVisFormatToData data) as [sendData | e]; [| reflexivity].
  destruct (url_Parse "attributes/") as [path | e]; [| reflexivity].
  cbv zeta.
  unfold mbind, M_bind, bind, resolve, Post, base_setData, emit, ret.
  rewrite Hurl. simpl.
  destruct (http_Post (URL_String (ResolveReference u path)) "application/json"
              sendData (net w)) as [[res | e] n]; simpl; [| reflexivity].
  destruct (decide (StatusCode res ≠ 201%Z)) as [Hne | Heq].
  - destruct (decide (StatusCode res = 201%Z)); [done | reflexivity].
  - apply dec_stable in Heq.
    destruct (decide (StatusCode res = 201%Z)); [| done].
    unfold mbind, M_bind, bind. simpl.
    destruct (setData (baseAdapter adapter) (list_to_map data)) as [base err].
    simpl. now rewrite <- app_assoc.
Qed.

End WritePath.

(** C2, as stated, fails: every key of this batch begins with the prefix,
    and the conversion still fails, because [json.Marshal] has no text for
    NaN. *)
Lemma convertVisFormatToData_unsupported_value :
  Forall (λ kv, HasPrefix kv.1 "Attribute.Emulator." = true) Demo.nan_write
  ∧ NoDup Demo.nan_write.*1
  ∧ @convertVisFormatToData Demo.upstream Demo.nan_write = Err UnsupportedValueError.
Proof.
  split; [repeat constructor |].
  split; [apply (bool_decide_unpack _); vm_compute; exact I |].
  vm_compute. reflexivity.
Qed.

Lemma convertVisFormatToData_whole_batch_witness :
  (Forall (λ kv, HasPrefix kv.1 "Attribute.Emulator." = true) Demo.stop_write
   ∧ Forall (λ kv, marshal_supported kv.2 = true) Demo.stop_write
   ∧ @convertVisFormatToData Demo.upstream Demo.stop_write
     = Ok (@json_encode Demo.upstream (stripped Demo.stop_write ∅)))
  ∧ (¬ Forall (λ kv, HasPrefix kv.1 "Attribute.Emulator." = true) Demo.foreign_write
     ∧ ∃ path, path ∈ Demo.foreign_write.*1
         ∧ HasPrefix path "Attribute.Emulator." = false
         ∧ @convertVisFormatToData Demo.upstream Demo.foreign_write
           = Err (errorString ("Path " +:+ path +:+ " does not exist"))).
Proof.
  assert (H1 : Forall (λ kv, HasPrefix kv.1 "Attribute.Emulator." = true)
                 Demo.stop_write) by (repeat constructor).
  assert (H2 : Forall (λ kv, marshal_supported kv.2 = true) Demo.stop_write)
    by (repeat constructor).
  assert (H3 : ¬ Forall (λ kv, HasPrefix kv.1 "Attribute.Emulator." = true)
                 Demo.foreign_write).
  { intros H. inversion H as [|? ? _ H']; subst.
    inversion H' as [|? ? Hbad _]; subst. vm_compute in Hbad. discriminate. }
  split.
  - split; [exact H1 | split; [exact H2 |]].
    exact (proj1 (proj2 (proj2 (proj2
             (proj1 (@convertVisFormatToData_whole_batch Demo.upstream
                       Demo.stop_write) H1)))) H2).
  - split; [exact H3 |].
    destruct (proj2 (@convertVisFormatToData_whole_batch Demo.upstream
                       Demo.foreign_write) H3) as (path & Hin & Hbad & Herr & _).
    exists path. split; [exact Hin | split; [exact Hbad | exact Herr]].
Defined.

Lemma SetData_posts_before_commit_witness :
  sensorURL Demo.built = Some Demo.base_url
  ∧ SetData Demo.built Demo.stop_write Demo.start
    = Returns
        ((Demo.set_data (baseAdapter Demo.built) (list_to_map Demo.stop_write)).2,
         @mkSensorEmulatorAdapter Demo.upstream (sensorURL Demo.built)
           (updatePeriod Demo.built)
           (Demo.set_data (baseAdapter Demo.built) (list_to_map Demo.stop_write)).1)
        (Demo.world_at 1
           [EvPost "http://localhost:8800/attributes/" "application/json"
              Demo.stop_text;
            EvSetData (list_to_map Demo.stop_write)]).
Proof.
  split; [reflexivity |].
  exact (SetData_posts_before_commit Demo.built Demo.stop_write Demo.start
           Demo.base_url eq_refl).
Defined.

(** The three ways [SetData] ends, run against the example upstream: the
    stop command is posted, answered with 201 and committed; a refused
    request and a rejected body leave the store alone. *)
Example SetData_commits_after_201 :
  world_after (SetData Demo.built Demo.stop_write Demo.start)
  = Demo.world_at 1
      [EvPost "http://localhost:8800/attributes/" "application/json" Demo.stop_text;
       EvSetData (list_to_map Demo.stop_write)]
  ∧ (λ r, (r.1, data (baseAdapter r.2) !! "Attribute.Emulator.stop"))
      <$> returned (SetData Demo.built Demo.stop_write Demo.start)
    = Some (None, Some (mkBaseData (VBool true))).
Proof. split; reflexivity. Qed.

Example SetData_transport_error :
  SetData Demo.built Demo.stop_write (Demo.world_at 1 [])
  = Returns (Some (foreignError "connection refused"), Demo.built)
      (Demo.world_at 2
         [EvPost "http://localhost:8800/attributes/" "application/json" Demo.stop_text]).
Proof. reflexivity. Qed.

Example SetData_rejected_status :
  SetData Demo.built [("Attribute.Emulator.tire_break", VBool true)] Demo.start
  = Returns (Some (errorString "400 Bad Request"), Demo.built)
      (Demo.world_at 1
         [EvPost "http://localhost:8800/attributes/" "application/json"
            (Demo.bytes "{}")]).
Proof. reflexivity. Qed.

(** ** Properties of the refresh task *)

Section Refresh.
Context `{Ext : Externals}.

Lemma getDataFromSensorEmulator_returns (adapter : SensorEmulatorAdapter)
    (w : world) (u : URL) :
  sensorURL adapter = Some u →
  ∃ r w1,
    getDataFromSensorEmulator adapter w = Returns r w1
    ∧ (w1 = w ∨ ∃ address, trace w1 = trace w ++ [EvGet address]).
Proof.
  intros Hurl. unfold getDataFromSensorEmulator.
  destruct (url_Parse "stats") as [path | e]; [| eexists _, _; split; [done | now left]].
  unfold mbind, M_bind, bind, resolve, Get, ret. rewrite Hurl. simpl.
  destruct (http_Get (URL_String (ResolveReference u path)) (net w))
    as [[res | e] n] eqn:Hget; simpl.
  - destruct (Body res) as [body | e];
      (eexists _, _; split; [reflexivity | right; eexists; reflexivity]).
  - eexists _, _; split; [reflexivity | right; eexists; reflexivity].
Qed.

Lemma processData_tick_continues (adapter : SensorEmulatorAdapter)
    (w : world) (u : URL) :
  sensorURL adapter = Some u →
  ∃ r w1,
    getDataFromSensorEmulator adapter w = Returns r w1
    ∧ (w1 = w ∨ ∃ address, trace w1 = trace w ++ [EvGet address])
    ∧ match r with
      | Err e =>
          processData_tick adapter w
          = Returns (Continue, adapter)
              (mkWorld (net w1) (trace w1 ++ [EvLogError "Can't read data: %s" e]))
      | Ok fetched =>
          processData_tick adapter w
          = Returns
              (Continue,
               mkSensorEmulatorAdapter (sensorURL adapter) (updatePeriod adapter)
                 (setData (baseAdapter adapter) fetched).1)
              (mkWorld (net w1)
                 (trace w1 ++ EvSetData fetched ::
                    match (setData (baseAdapter adapter) fetched).2 with
                    | Some e => [EvLogError "Can't update data: %s" e]
                    | None => []
                    end))
      end.
Proof.
  intros Hurl.
  destruct (getDataFromSensorEmulator_returns adapter w u Hurl)
    as (r & w1 & Hget & Hevs).
  exists r, w1. split; [exact Hget | split; [exact Hevs |]].
  unfold processData_tick, mbind, M_bind, bind. rewrite Hget.
  destruct r as [fetched | e]; [| reflexivity].
  unfold base_setData, mbind, M_bind, bind, emit, Errorf, emit, ret. simpl.
  destruct (setData (baseAdapter adapter) fetched) as [base [e |]]; simpl.
  - now rewrite <- app_assoc.
  - reflexivity.
Qed.

Lemma processData_loop_runs (ticks : nat) :
  ∀ (adapter : SensorEmulatorAdapter) (w : world) (u : URL),
    sensorURL adapter = Some u →
    ∃ adapter' w',
      processData_loop ticks adapter w = Returns (Running adapter') w'
      ∧ sensorURL adapter' = Some u
      ∧ updatePeriod adapter' = updatePeriod adapter.
Proof.
  induction ticks as [|ticks IH]; intros adapter w u Hurl.
  - exists adapter, w. done.
  - destruct (processData_tick_continues adapter w u Hurl)
      as (r & w1 & _ & _ & Htick).
    simpl. unfold mbind, M_bind, bind.
    destruct r as [fetched | e]; rewrite Htick.
    + destruct (IH (mkSensorEmulatorAdapter (sensorURL adapter) (updatePeriod adapter)
                      (setData (baseAdapter adapter) fetched).1)
                  (mkWorld (net w1)
                     (trace w1 ++ EvSetData fetched ::
                        match (setData (baseAdapter adapter) fetched).2 with
                        | Some e => [EvLogError "Can't update data: %s" e]
                        | None => []
                        end)) u Hurl)
        as (adapter' & w' & Hloop & Hurl' & Hperiod).
      exists adapter', w'. done.
    + destruct (IH adapter
                  (mkWorld (net w1) (trace w1 ++ [EvLogError "Can't read data: %s" e]))
                  u Hurl) as (adapter' & w' & Hloop & Hurl' & Hperiod).
      exists adapter', w'. done.
Qed.

(** C6: in the refresh task of an adapter with a sensor URL, a tick always
    ends with [continue].  It makes at most one fetch; when the fetch fails
    the error is logged, the base adapter is not called and the adapter is
    as before; when the fetch succeeds [setData] is called once and its
    error, if any, is logged.  So after any number of ticks, whatever the
    upstream and the base adapter answered, the task is still running. *)
Theorem processData_survives_errors (adapter : SensorEmulatorAdapter)
    (w : world) (u : URL) :
  sensorURL adapter = Some u →
  (∃ r w1,
     getDataFromSensorEmulator adapter w = Returns r w1
     ∧ (w1 = w ∨ ∃ address, trace w1 = trace w ++ [EvGet address])
     ∧ match r with
       | Err e =>
           processData_tick adapter w
           = Returns (Continue, adapter)
               (mkWorld (net w1) (trace w1 ++ [EvLogError "Can't read data: %s" e]))
       | Ok fetched =>
           processData_tick adapter w
           = Returns
               (Continue,
                mkSensorEmulatorAdapter (sensorURL adapter) (updatePeriod adapter)
                  (setData (baseAdapter adapter) fetched).1)
               (mkWorld (net w1)
                  (trace w1 ++ EvSetData fetched ::
                     match (setData (baseAdapter adapter) fetched).2 with
                     | Some e => [EvLogError "Can't update data: %s" e]
                     | None => []
                     end))
       end)
  ∧ (∀ ticks,
       ∃ adapter' w',
         processData_loop ticks adapter w = Returns (Running adapter') w')
  ∧ ((0 < ticker_period adapter)%Z →
     ∀ ticks,
       ∃ adapter' w',
         processData ticks adapter w = Returns (Running adapter') w').
Proof.
  intros Hurl. split; [exact (processData_tick_continues adapter w u Hurl) | split].
  - intros ticks.
    destruct (processData_loop_runs ticks adapter w u Hurl) as (a & w' & H & _).
    now exists a, w'.
  - intros Hperiod ticks. unfold processData.
    destruct (Z.leb_spec (ticker_period adapter) 0) as [Hle | _]; [lia |].
    destruct (processData_loop_runs ticks adapter w u Hurl) as (a & w' & H & _).
    now exists a, w'.
Qed.

End Refresh.

Lemma processData_survives_errors_witness :
  sensorURL Demo.built = Some Demo.base_url
  ∧ (0 < ticker_period Demo.built)%Z
  ∧ ∃ adapter' w', processData 3 Demo.built Demo.start = Returns (Running adapter') w'.
Proof.
  split; [reflexivity |]. split; [vm_compute; reflexivity |].
  refine (proj2 (proj2 (processData_survives_errors Demo.built Demo.start
                          Demo.base_url eq_refl)) _ 3%nat).
  vm_compute. reflexivity.
Defined.

(** Three ticks against the example upstream, which refuses the second
    request: the failed fetch is logged between two refreshes. *)
Example processData_three_ticks :
  ∃ adapter',
    processData 3 Demo.built Demo.start
    = Returns (Running adapter')
        (Demo.world_at 3
           [EvGet "http://localhost:8800/stats";
            EvSetData (parseNode "Signal.Emulator" Demo.stats);
            EvGet "http://localhost:8800/stats";
            EvLogError "Can't read data: %s" (foreignError "connection refused");
            EvGet "http://localhost:8800/stats";
            EvSetData (parseNode "Signal.Emulator" Demo.stats)]).
Proof. eexists. reflexivity. Qed.

(** ** Properties of construction and of the public interface *)

Section Construction.
Context `{Ext : Externals}.

(** C7: [IsPathPublic] answers [true] with no error for every path, and
    hands the base adapter back with its lock released and nothing else
    changed. *)
Theorem IsPathPublic_always_true (adapter : SensorEmulatorAdapter) (path : string) :
  (IsPathPublic adapter path).1 = (true, None)
  ∧ sensorURL (IsPathPublic adapter path).2 = sensorURL adapter
  ∧ updatePeriod (IsPathPublic adapter path).2 = updatePeriod adapter
  ∧ baseAdapter (IsPathPublic adapter path).2 = Unlock (baseAdapter adapter).
Proof. repeat split. Qed.





(** An adapter that construction returned has a sensor URL: with a nil URL
    the first fetch does not return. *)
Lemma NewSensorEmulatorAdapter_Ok_url (configJSON : list byte) (w w' : world)
    (adapter : SensorEmulatorAdapter) :
  NewSensorEmulatorAdapter configJSON w = Returns (Ok adapter) w' →
  ∃ u, sensorURL adapter = Some u.
Proof.
  unfold NewSensorEmulatorAdapter.
  destruct (Unmarshal_config configJSON _) as [cfg | e]; [| discriminate].
  destruct (decide (SensorURL cfg = EmptyString)); [discriminate |].
  destruct newBaseAdapter as [base | e]; [| discriminate].
  destruct (url_Parse (SensorURL cfg)) as [u | e].
  - unfold mbind, M_bind, bind.
    destruct (getDataFromSensorEmulator _ w) as [[fetched | e] w1 | msg w1];
      try discriminate.
    unfold emit, ret. intros [= <- _]. now exists u.
  - unfold mbind, M_bind, bind, getDataFromSensorEmulator.
    destruct (url_Parse "stats"); discriminate.
Qed.


(** Configurations that construction refuses with an error, before it
    creates or touches anything: a text that [json.Unmarshal] rejects (not
    JSON, or JSON of the wrong shape), and a document that leaves
    [SensorURL] empty. *)
Theorem NewSensorEmulatorAdapter_refuses_config (configJSON : list byte) (w : world) :
  (∀ e, json_parse configJSON = Err e →
        NewSensorEmulatorAdapter configJSON w = Returns (Err e) w)
  ∧ (∀ e, Unmarshal_config configJSON (mkConfig EmptyString defaultUpdatePeriod) = Err e →
          NewSensorEmulatorAdapter configJSON w = Returns (Err e) w)
  ∧ (∀ cfg,
       Unmarshal_config configJSON (mkConfig EmptyString defaultUpdatePeriod) = Ok cfg →
       SensorURL cfg = EmptyString →
       NewSensorEmulatorAdapter configJSON w
       = Returns (Err (errorString "Sensor URL should be defined")) w).
Proof.
  split; [| split].
  - intros e H. unfold NewSensorEmulatorAdapter, Unmarshal_config. now rewrite H.
  - intros e H. unfold NewSensorEmulatorAdapter. now rewrite H.
  - intros cfg Hcfg Hurl. unfold NewSensorEmulatorAdapter. rewrite Hcfg.
    now destruct (decide (SensorURL cfg = EmptyString)).
Qed.

(** With a period of zero, which the configuration may give, the refresh
    task panics when it creates its ticker; so it does with any period whose
    count of nanoseconds is not positive as an [int64]. *)
Theorem processData_nonpositive_period (ticks : nat)
    (adapter : SensorEmulatorAdapter) (w : world) :
  (updatePeriod adapter = 0%N → ticker_period adapter = 0%Z)
  ∧ ((ticker_period adapter ≤ 0)%Z →
     processData ticks adapter w = Panics "non-positive interval for NewTicker" w).
Proof.
  split.
  - unfold ticker_period. now intros ->.
  - intros H. unfold processData.
    destruct (Z.leb_spec (ticker_period adapter) 0) as [_ | Hlt]; [reflexivity | lia].
Qed.

Lemma store_initial_fmap (fetched : gmap string value) (store : gmap string baseData) :
  store_initial fetched store = (mkBaseData <$> fetched) ∪ store.
Proof.
  unfold store_initial.
  apply (map_fold_weak_ind (λ r m, r = (mkBaseData <$> m) ∪ store)).
  - now rewrite fmap_empty, (left_id_L ∅ (∪)).
  - intros i x m r _ ->. now rewrite fmap_insert, insert_union_l.
Qed.

Lemma create_attributes_lookup (store : gmap string baseData) (k : string) :
  create_attributes store !! k
  = if decide (k ∈ attribute_paths) then Some (mkBaseData VNil) else store !! k.
Proof.
  unfold create_attributes. generalize attribute_paths. intros paths.
  revert store. induction paths as [|p paths IH]; intros store; simpl.
  - destruct (decide (k ∈ [])) as [H |]; [inversion H | reflexivity].
  - rewrite IH. destruct (decide (k ∈ paths)) as [Hin | Hnin].
    + rewrite decide_True by now right. reflexivity.
    + destruct (decide (p = k)) as [-> | Hne].
      * rewrite lookup_insert_eq, decide_True by now left. reflexivity.
      * rewrite lookup_insert_ne by done.
        rewrite decide_False; [reflexivity |].
        intros [-> | H]%elem_of_cons; congruence.
Qed.

(** A fetch that returns a map made exactly one GET, of [stats] resolved
    against the sensor URL, and the map is the flattened body of the answer. *)
Lemma getDataFromSensorEmulator_Ok_fetch (adapter : SensorEmulatorAdapter)
    (w w1 : world) (fetched : gmap string value) :
  getDataFromSensorEmulator adapter w = Returns (Ok fetched) w1 →
  ∃ u path res body doc,
    sensorURL adapter = Some u
    ∧ url_Parse "stats" = Ok path
    ∧ http_Get (URL_String (ResolveReference u path)) (net w) = (Ok res, net w1)
    ∧ Body res = Ok body
    ∧ json_Unmarshal body = Ok doc
    ∧ fetched = parseNode "Signal.Emulator" doc
    ∧ trace w1 = trace w ++ [EvGet (URL_String (ResolveReference u path))].
Proof.
  unfold getDataFromSensorEmulator.
  destruct (url_Parse "stats") as [path | e]; [| discriminate].
  unfold mbind, M_bind, bind, resolve, Get, ret.
  destruct (sensorURL adapter) as [u |]; [| discriminate]. simpl.
  destruct (http_Get _ (net w)) as [[res | e] n] eqn:Hget; simpl; [| discriminate].
  destruct (Body res) as [body | e] eqn:Hbody; [| discriminate].
  unfold convertDataToVisFormat.
  destruct (json_Unmarshal body) as [doc | e] eqn:Hdoc; [| discriminate].
  intros [= <- <-]. exists u, path, res, body, doc. simpl. repeat split; done.
Qed.

(** What construction leaves in the store: the adapter is named, every
    attribute path is there with a nil value, and every path of the initial
    fetch is there with the value fetched for it.  The initial fetch is the
    body of the answer to the one GET of [stats], resolved against the
    adapter's sensor URL and made in the world construction started in,
    decoded and flattened under [Signal.Emulator]. *)
Theorem NewSensorEmulatorAdapter_store (configJSON : list byte) (w w' : world)
    (adapter : SensorEmulatorAdapter) :
  NewSensorEmulatorAdapter configJSON w = Returns (Ok adapter) w' →
  name (baseAdapter adapter) = "SensorEmulatorAdapter"
  ∧ Forall (λ path, data (baseAdapter adapter) !! path = Some (mkBaseData VNil))
      attribute_paths
  ∧ ∃ u path res body doc,
      sensorURL adapter = Some u
      ∧ url_Parse "stats" = Ok path
      ∧ http_Get (URL_String (ResolveReference u path)) (net w) = (Ok res, net w')
      ∧ Body res = Ok body
      ∧ json_Unmarshal body = Ok doc
      ∧ ∀ k v, parseNode "Signal.Emulator" doc !! k = Some v →
               data (baseAdapter adapter) !! k = Some (mkBaseData v).
Proof.
  unfold NewSensorEmulatorAdapter.
  destruct (Unmarshal_config configJSON _) as [cfg | e]; [| discriminate].
  destruct (decide (SensorURL cfg = EmptyString)); [discriminate |].
  destruct newBaseAdapter as [base | e]; [| discriminate].
  unfold mbind, M_bind, bind.
  destruct (getDataFromSensorEmulator _ w) as [[fetched | e] w1 | msg w1] eqn:Hget;
    try discriminate.
  unfold emit, ret. intros [= <- <-]. simpl.
  split; [reflexivity | split].
  - apply Forall_forall. intros path Hin.
    now rewrite create_attributes_lookup, decide_True.
  - destruct (getDataFromSensorEmulator_Ok_fetch _ _ _ _ Hget)
      as (u & path & res & body & doc & Hurl & Hpath & Hres & Hbody & Hdoc & -> & _).
    simpl in Hurl.
    exists u, path, res, body, doc.
    split; [exact Hurl | split; [exact Hpath | split; [exact Hres |]]].
    split; [exact Hbody | split; [exact Hdoc |]].
    intros k v Hk.
    rewrite create_attributes_lookup, decide_False.
    + rewrite store_initial_fmap. apply lookup_union_Some_l.
      now rewrite lookup_fmap, Hk.
    + intros Hin.
      assert (Hsig : HasPrefix k "Signal.Emulator" = true).
      { destruct (parseNode_key doc "Signal.Emulator" k) as [-> | Hpre];
          [now rewrite Hk | apply HasPrefix_refl |].
        eapply HasPrefix_trans; [exact Hpre | apply HasPrefix_append]. }
      unfold attribute_paths in Hin.
      repeat (apply elem_of_cons in Hin as [-> | Hin]; [discriminate Hsig |]).
      inversion Hin.
Qed.

(** C5, where the code departs from it: when the configured [SensorURL] is
    not empty and [url.Parse] rejects it, nothing reads that error; the
    adapter keeps a nil URL, and the first fetch dereferences it.
    Construction panics instead of returning an error. *)
Theorem NewSensorEmulatorAdapter_unparsed_url_panics (configJSON : list byte)
    (w : world) (cfg : config) (base : BaseAdapter) (e : error) (path : URL) :
  Unmarshal_config configJSON (mkConfig EmptyString defaultUpdatePeriod) = Ok cfg →
  SensorURL cfg ≠ EmptyString →
  url_Parse (SensorURL cfg) = Err e →
  newBaseAdapter = Ok base →
  url_Parse "stats" = Ok path →
  NewSensorEmulatorAdapter configJSON w
  = Panics "runtime error: invalid memory address or nil pointer dereference" w.
Proof.
  intros Hcfg Hne Hurl Hbase Hstats. unfold NewSensorEmulatorAdapter.
  rewrite Hcfg. destruct (decide (SensorURL cfg = EmptyString)); [done |].
  rewrite Hurl, Hbase.
  unfold mbind, M_bind, bind, getDataFromSensorEmulator. rewrite Hstats.
  reflexivity.
Qed.

End Construction.


Lemma NewSensorEmulatorAdapter_unparsed_url_panics_witness :
  (@Unmarshal_config Demo.upstream Demo.config_bad_url (mkConfig EmptyString defaultUpdatePeriod)
   = Ok (mkConfig ":" defaultUpdatePeriod)
   ∧ @url_Parse Demo.upstream ":" = Err (foreignError "missing protocol scheme"))
  ∧ @NewSensorEmulatorAdapter Demo.upstream Demo.config_bad_url Demo.start
    = Panics "runtime error: invalid memory address or nil pointer dereference"
        Demo.start.
Proof.
  split; [split; reflexivity |].
  apply (NewSensorEmulatorAdapter_unparsed_url_panics Demo.config_bad_url Demo.start
           (mkConfig ":" defaultUpdatePeriod) (mkBaseAdapter EmptyString ∅ false)
           (foreignError "missing protocol scheme") "stats");
    [reflexivity | discriminate | reflexivity | reflexivity | reflexivity].
Defined.

Lemma NewSensorEmulatorAdapter_refuses_config_witness :
  (@json_parse Demo.upstream Demo.config_truncated
   = Err (SyntaxError "unexpected end of JSON input")
   ∧ @NewSensorEmulatorAdapter Demo.upstream Demo.config_truncated Demo.start
     = Returns (Err (SyntaxError "unexpected end of JSON input")) Demo.start)
  ∧ (@Unmarshal_config Demo.upstream Demo.config_no_url
       (mkConfig EmptyString defaultUpdatePeriod)
     = Ok (mkConfig EmptyString 250)
     ∧ @NewSensorEmulatorAdapter Demo.upstream Demo.config_no_url Demo.start
       = Returns (Err (errorString "Sensor URL should be defined")) Demo.start).
Proof.
  assert (H1 : @json_parse Demo.upstream Demo.config_truncated
               = Err (SyntaxError "unexpected end of JSON input")) by reflexivity.
  assert (H2 : @Unmarshal_config Demo.upstream Demo.config_no_url
                 (mkConfig EmptyString defaultUpdatePeriod)
               = Ok (mkConfig EmptyString 250)) by reflexivity.
  split; (split; [assumption |]).
  - exact (proj1 (NewSensorEmulatorAdapter_refuses_config _ Demo.start) _ H1).
  - exact (proj2 (proj2 (NewSensorEmulatorAdapter_refuses_config _ Demo.start))
             _ H2 eq_refl).
Defined.

Lemma processData_nonpositive_period_witness :
  updatePeriod (Demo.built_with 0) = 0%N
  ∧ (ticker_period (Demo.built_with 0) ≤ 0)%Z
  ∧ processData 3 (Demo.built_with 0) Demo.start
    = Panics "non-positive interval for NewTicker" Demo.start.
Proof.
  assert (H : (ticker_period (Demo.built_with 0) ≤ 0)%Z)
    by (rewrite (proj1 (processData_nonpositive_period 0 (Demo.built_with 0) Demo.start)
                   eq_refl); lia).
  split; [reflexivity | split; [exact H |]].
  exact (proj2 (processData_nonpositive_period 3 (Demo.built_with 0) Demo.start) H).
Defined.

Lemma NewSensorEmulatorAdapter_store_witness :
  @NewSensorEmulatorAdapter Demo.upstream Demo.config_plain Demo.start
  = Returns (Ok Demo.built)
      (Demo.world_at 1 [EvGet "http://localhost:8800/stats"; EvGo "processData"])
  ∧ name (baseAdapter Demo.built) = "SensorEmulatorAdapter"
  ∧ Forall (λ path, data (baseAdapter Demo.built) !! path = Some (mkBaseData VNil))
      attribute_paths
  ∧ ∃ doc,
      @json_Unmarshal Demo.upstream Demo.stats_text = Ok doc
      ∧ ∀ k v, parseNode "Signal.Emulator" doc !! k = Some v →
               data (baseAdapter Demo.built) !! k = Some (mkBaseData v).
Proof.
  assert (H : @NewSensorEmulatorAdapter Demo.upstream Demo.config_plain Demo.start
              = Returns (Ok Demo.built)
                  (Demo.world_at 1
                     [EvGet "http://localhost:8800/stats"; EvGo "processData"]))
    by reflexivity.
  split; [exact H |].
  destruct (NewSensorEmulatorAdapter_store _ _ _ _ H)
    as (Hname & Hattrs & u & path & res & body & doc & Hurl & Hpath & Hres & Hbody
        & Hdoc & Hstore).
  split; [exact Hname | split; [exact Hattrs |]].
  injection Hurl as <-. injection Hpath as <-.
  injection Hres as <-. injection Hbody as <-.
  exists doc. split; [exact Hdoc | exact Hstore].
Defined.

(** Without a sensor URL neither the write path nor a fetch returns. *)
Example SetData_nil_url_panics :
  SetData Demo.unaddressed Demo.stop_write Demo.start
  = Panics "runtime error: invalid memory address or nil pointer dereference"
      Demo.start.
Proof. reflexivity. Qed.

(** ** Further properties of the codec *)

Lemma leaves_not_object (element : value) :
  ∀ prefix k v, (k, v) ∈ leaves prefix element → is_object v = false.
Proof.
  induction element as [| b | f | s | l _ | m IH] using value_nested_ind;
    intros prefix k v;
    try (simpl; intros [= _ ->]%list_elem_of_singleton; reflexivity).
  rewrite leaves_object.
  intros (part & Hpart & Hin)%list_elem_of_In%in_concat.
  apply in_map_iff in Hpart as ([key x] & <- & Hentry).
  apply list_elem_of_In in Hin, Hentry.
  rewrite Forall_forall in IH. exact (IH _ Hentry _ _ _ Hin).
Qed.

Lemma size_list_to_map_le (l : list (string * value)) :
  (size (list_to_map l : gmap string value) ≤ length l)%nat.
Proof.
  induction l as [|[k v] l IH]; simpl.
  - now rewrite map_size_empty.
  - rewrite map_size_insert. destruct (list_to_map l !! k); simpl; lia.
Qed.

(** The flattened map holds nothing but leaves of the document: every
    entry is a value of the document that is not an object, under the
    dot-joined path that leads to it; so the map never holds an object, its
    keys are exactly the paths of the leaves, and it has at most as many
    entries as the document has leaves. *)
Theorem parseNode_holds_only_leaves (prefix : string) (D : value) :
  (∀ k v, parseNode prefix D !! k = Some v →
          (k, v) ∈ leaves prefix D ∧ is_object v = false)
  ∧ (∀ k, is_Some (parseNode prefix D !! k) ↔ k ∈ (leaves prefix D).*1)
  ∧ (size (parseNode prefix D) ≤ length (leaves prefix D))%nat.
Proof.
  split; [| split].
  - intros k v Hk. rewrite parseNode_leaves in Hk.
    apply elem_of_list_to_map_2 in Hk. rewrite elem_of_reverse in Hk.
    split; [exact Hk | exact (leaves_not_object _ _ _ _ Hk)].
  - intros k. rewrite <- elem_of_dom, parseNode_leaves, dom_list_to_map_L.
    now rewrite elem_of_list_to_set, fmap_reverse, elem_of_reverse.
  - rewrite parseNode_leaves. etransitivity; [apply size_list_to_map_le |].
    now rewrite length_reverse.
Qed.

Lemma parseNode_holds_only_leaves_witness :
  parseNode "Signal.Emulator" Demo.colliding !! "Signal.Emulator.a.b"
  = Some (VString "y")
  ∧ ("Signal.Emulator.a.b", VString "y") ∈ leaves "Signal.Emulator" Demo.colliding
  ∧ is_object (VString "y") = false.
Proof.
  assert (H : parseNode "Signal.Emulator" Demo.colliding !! "Signal.Emulator.a.b"
              = Some (VString "y")) by (vm_compute; reflexivity).
  split; [exact H |].
  exact (proj1 (parseNode_holds_only_leaves "Signal.Emulator" Demo.colliding) _ _ H).
Defined.

Lemma concat_Permutation {A B : Type} (f : A → list B) (l l' : list A) :
  l ≡ₚ l' → concat (map f l) ≡ₚ concat (map f l').
Proof.
  induction 1 as [| x l l' _ IH | x y l | l l' l'' _ IH1 _ IH2]; simpl.
  - reflexivity.
  - now rewrite IH.
  - rewrite !app_assoc. f_equiv. apply Permutation_app_comm.
  - now rewrite IH1.
Qed.

Lemma leaves_reordered (D D' : value) :
  reordered D D' → ∀ prefix, leaves prefix D ≡ₚ leaves prefix D'.
Proof.
  induction 1 as [v | u v w _ IH1 _ IH2 | m m' Hperm | before after key v v' _ IH];
    intros prefix.
  - reflexivity.
  - now rewrite IH1.
  - rewrite !leaves_object. now apply concat_Permutation.
  - rewrite !leaves_object, !map_app, !concat_app. simpl.
    now rewrite (IH (prefix +:+ "." +:+ key)).
Qed.

(** Flattening does not depend on the order in which [range] visits the
    entries of any object, as long as the paths of the leaves are pairwise
    distinct: the two documents have the same leaves, and the same
    flattened map. *)
Theorem parseNode_order_independent (prefix : string) (D D' : value) :
  reordered D D' →
  leaves prefix D ≡ₚ leaves prefix D'
  ∧ (NoDup (leaves prefix D).*1 → parseNode prefix D = parseNode prefix D').
Proof.
  intros Hre. pose proof (leaves_reordered D D' Hre prefix) as Hperm.
  split; [exact Hperm |].
  intros Hnd. rewrite !parseNode_leaves. apply list_to_map_proper.
  - now rewrite fmap_reverse, reverse_Permutation.
  - now rewrite !reverse_Permutation.
Qed.

Lemma parseNode_order_independent_witness :
  reordered Demo.stats Samples.stats_reordered
  ∧ NoDup (leaves "Signal.Emulator" Demo.stats).*1
  ∧ parseNode "Signal.Emulator" Demo.stats
    = parseNode "Signal.Emulator" Samples.stats_reordered.
Proof.
  assert (H1 : reordered Demo.stats Samples.stats_reordered)
    by (apply reordered_entries, Permutation_swap).
  assert (H2 : NoDup (leaves "Signal.Emulator" Demo.stats).*1)
    by (apply (bool_decide_unpack _); vm_compute; exact I).
  split; [exact H1 | split; [exact H2 |]].
  exact (proj2 (parseNode_order_independent "Signal.Emulator" _ _ H1) H2).
Defined.

(** Where two leaves share a path the order does decide: the colliding
    document keeps ["y"] in one order and ["x"] in the other. *)
Example parseNode_order_decides_on_collision :
  reordered Demo.colliding Samples.colliding_reordered
  ∧ parseNode "p" Demo.colliding !! "p.a.b" = Some (VString "y")
  ∧ parseNode "p" Samples.colliding_reordered !! "p.a.b" = Some (VString "x").
Proof.
  split; [apply reordered_entries, Permutation_swap |].
  split; vm_compute; reflexivity.
Qed.

#[local] Instance append_inj (p : string) : Inj (=) (=) (String.append p).
Proof. intros a b. apply append_inj_l. Qed.

Lemma prefixed_union_list (p : string) (l : list (gmap string value)) :
  prefixed p (⋃ l) = ⋃ (prefixed p <$> l).
Proof.
  induction l as [|m l IH].
  - apply kmap_empty.
  - rewrite fmap_cons.
    change (⋃ (m :: l)) with (m ∪ ⋃ l).
    change (⋃ (prefixed p m :: (prefixed p <$> l)))
      with (prefixed p m ∪ ⋃ (prefixed p <$> l)).
    rewrite <- IH. apply kmap_union. apply _.
Qed.

Lemma parseNode_prefixed (D : value) :
  ∀ p q, parseNode (p +:+ q) D = prefixed p (parseNode q D).
Proof.
  induction D as [| b | f | s | l _ | m IH] using value_nested_ind;
    intros p q; try (unfold prefixed; simpl; now rewrite kmap_singleton).
  rewrite !parseNode_object_union, prefixed_union_list.
  rewrite fmap_reverse. do 2 f_equal.
  induction m as [|[key x] m IHm]; [reflexivity |].
  inversion IH as [|? ? Hx Hrest]; subst. simpl in *.
  rewrite (IHm Hrest). f_equal.
  rewrite append_assoc. apply Hx.
Qed.

Lemma leaves_prefixed (D : value) :
  ∀ p q, leaves (p +:+ q) D = prod_map (String.append p) id <$> leaves q D.
Proof.
  induction D as [| b | f | s | l _ | m IH] using value_nested_ind;
    intros p q; try reflexivity.
  rewrite !leaves_object.
  induction m as [|[key x] m IHm]; [reflexivity |].
  inversion IH as [|? ? Hx Hrest]; subst. simpl in *.
  rewrite (IHm Hrest), fmap_app. f_equal.
  rewrite append_assoc. apply Hx.
Qed.

(** Flattening under a longer prefix is flattening under the shorter one
    and then putting the rest in front of every key: the values, the number
    of entries and whether two leaves share a path do not depend on the
    prefix. *)
Theorem parseNode_prefix_commutes (p q : string) (D : value) :
  parseNode (p +:+ q) D = prefixed p (parseNode q D)
  ∧ (∀ k, parseNode (p +:+ q) D !! (p +:+ k) = parseNode q D !! k)
  ∧ size (parseNode (p +:+ q) D) = size (parseNode q D)
  ∧ (NoDup (leaves (p +:+ q) D).*1 ↔ NoDup (leaves q D).*1).
Proof.
  split; [apply parseNode_prefixed | split; [| split]].
  - intros k. rewrite parseNode_prefixed. apply (lookup_kmap (String.append p)).
  - rewrite parseNode_prefixed. unfold prefixed.
    rewrite <- !length_map_to_list, (map_to_list_kmap (String.append p)).
    apply length_fmap.
  - rewrite leaves_prefixed, <- list_fmap_compose.
    replace (fst ∘ prod_map (String.append p) id)
      with (String.append p ∘ (fst : string * value → string)) by reflexivity.
    rewrite list_fmap_compose. apply (NoDup_fmap (String.append p)).
Qed.

(** ** Further properties of the write path *)

Section WriteOrder.
Context `{Ext : Externals}.

Lemma stripped_size (visData : list (string * value)) :
  ∀ sendData,
    Forall (λ kv, HasPrefix kv.1 "Attribute.Emulator." = true) visData →
    NoDup visData.*1 →
    Forall (λ kv, sendData !! TrimPrefix kv.1 "Attribute.Emulator." = None) visData →
    size (stripped visData sendData) = length visData + size sendData.
Proof.
  induction visData as [|[path x] rest IH]; intros sendData Hall Hnd Hfresh;
    [reflexivity |].
  inversion Hall as [|? ? Hpath Hrest]; subst.
  inversion Hfresh as [|? ? Hnew Hfresh']; subst.
  rewrite fmap_cons in Hnd. apply NoDup_cons in Hnd as [Hpath' Hnd].
  simpl in Hpath, Hpath', Hnew.
  rewrite stripped_cons, IH; [| done | done |].
  - rewrite map_size_insert_None by done. simpl. lia.
  - apply Forall_forall. intros [path' x'] Hin. simpl.
    rewrite Forall_forall in Hfresh', Hrest.
    rewrite lookup_insert_ne; [exact (Hfresh' _ Hin) |].
    apply HasPrefix_iff in Hpath as [suffix ->].
    pose proof (Hrest _ Hin) as [suffix' Hsuffix']%HasPrefix_iff.
    simpl in Hsuffix'. subst path'. rewrite !TrimPrefix_append.
    intros ->. apply Hpath'. apply list_elem_of_fmap.
    now exists ("Attribute.Emulator." +:+ suffix', x').
Qed.

Lemma stripped_Permutation (visData visData' : list (string * value)) :
  Forall (λ kv, HasPrefix kv.1 "Attribute.Emulator." = true) visData →
  NoDup visData.*1 →
  visData ≡ₚ visData' →
  stripped visData ∅ = stripped visData' ∅.
Proof.
  intros Hall Hnd Hperm.
  assert (Hall' : Forall (λ kv, HasPrefix kv.1 "Attribute.Emulator." = true) visData')
    by now rewrite <- Hperm.
  assert (Hnd' : NoDup visData'.*1) by now rewrite <- Hperm.
  apply map_eq. intros k. apply option_eq. intros v.
  rewrite (stripped_lookup _ _ _ _ Hall Hnd), (stripped_lookup _ _ _ _ Hall' Hnd').
  rewrite !lookup_empty, Hperm. tauto.
Qed.

(** The conversion does not depend on the order in which [range] visits
    the map.  When every key has the prefix, the two orders build the same
    map, with one entry for every entry of the input (stripping the prefix
    never makes two keys collide), and return the same result; when some key
    lacks it, both orders fail. *)
Theorem convertVisFormatToData_order_independent
    (visData visData' : list (string * value)) :
  NoDup visData.*1 →
  visData ≡ₚ visData' →
  (Forall (λ kv, HasPrefix kv.1 "Attribute.Emulator." = true) visData →
   stripped visData ∅ = stripped visData' ∅
   ∧ size (stripped visData ∅) = length visData
   ∧ convertVisFormatToData visData = convertVisFormatToData visData')
  ∧ (¬ Forall (λ kv, HasPrefix kv.1 "Attribute.Emulator." = true) visData →
     ∃ path path',
       convertVisFormatToData visData
       = Err (errorString ("Path " +:+ path +:+ " does not exist"))
       ∧ convertVisFormatToData visData'
         = Err (errorString ("Path " +:+ path' +:+ " does not exist"))).
Proof.
  intros Hnd Hperm. split.
  - intros Hall.
    assert (Hall' : Forall (λ kv, HasPrefix kv.1 "Attribute.Emulator." = true)
                      visData') by now rewrite <- Hperm.
    pose proof (stripped_Permutation _ _ Hall Hnd Hperm) as Heq.
    split; [exact Heq | split].
    + rewrite stripped_size; [rewrite map_size_empty; lia | done | done |].
      apply Forall_forall. intros kv _. apply lookup_empty.
    + unfold convertVisFormatToData.
      now rewrite !convert_range_accepts, Heq.
  - intros Hnot.
    assert (Hnot' : ¬ Forall (λ kv, HasPrefix kv.1 "Attribute.Emulator." = true)
                      visData') by now rewrite <- Hperm.
    destruct (convert_range_refuses visData ∅ Hnot) as (path & _ & _ & Hres).
    destruct (convert_range_refuses visData' ∅ Hnot') as (path' & _ & _ & Hres').
    exists path, path'. unfold convertVisFormatToData. now rewrite Hres, Hres'.
Qed.

Lemma signal_not_attribute (k : string) :
  HasPrefix k "Signal.Emulator" = true →
  HasPrefix k "Attribute.Emulator." = false.
Proof.
  intros [r ->]%HasPrefix_iff. unfold HasPrefix.
  apply andb_false_iff. right. reflexivity.
Qed.

(** What the refresh stores cannot be written back: a batch that holds
    any path of a map that [convertDataToVisFormat] produced is refused
    whole, with the error naming such a path, and nothing is sent upstream;
    the write path only takes attributes. *)
Theorem SetData_refuses_signals (adapter : SensorEmulatorAdapter)
    (dataJSON : list byte) (fetched : gmap string value)
    (data : list (string * value)) (w : world) :
  convertDataToVisFormat dataJSON = Ok fetched →
  Exists (λ kv, is_Some (fetched !! kv.1)) data →
  ∃ path,
    path ∈ data.*1
    ∧ HasPrefix path "Attribute.Emulator." = false
    ∧ SetData adapter data w
      = Returns (Some (errorString ("Path " +:+ path +:+ " does not exist")),
                 adapter) w.
Proof.
  intros Hconv Hex.
  assert (Hnot : ¬ Forall (λ kv, HasPrefix kv.1 "Attribute.Emulator." = true) data).
  { intros Hall. apply Exists_exists in Hex as ([k v] & Hin & Hk). simpl in Hk.
    rewrite Forall_forall in Hall. specialize (Hall _ Hin). simpl in Hall.
    unfold convertDataToVisFormat in Hconv.
    destruct (json_Unmarshal dataJSON) as [doc | e]; [| discriminate].
    injection Hconv as <-.
    assert (Hsig : HasPrefix k "Signal.Emulator" = true).
    { apply parseNode_key in Hk as [-> | Hk]; [apply HasPrefix_refl |].
      eapply HasPrefix_trans; [exact Hk | apply HasPrefix_append]. }
    apply signal_not_attribute in Hsig. congruence. }
  destruct (convert_range_refuses data ∅ Hnot) as (path & Hin & Hbad & Hres).
  exists path. split; [exact Hin | split; [exact Hbad |]].
  apply SetData_refused. unfold convertVisFormatToData. now rewrite Hres.
Qed.

(** A batch reaches the upstream exactly when every key has the prefix and
    every value is one [json.Marshal] supports (the empty batch does: it is
    posted as the empty object).  Then the first thing [SetData] does is one
    POST of the JSON text of the batch, keys stripped, to [attributes/]
    resolved against the sensor URL; otherwise it returns an error and the
    world is as before. *)
Theorem SetData_reaches_upstream_iff (adapter : SensorEmulatorAdapter)
    (data : list (string * value)) (w : world) (u path : URL) :
  sensorURL adapter = Some u →
  url_Parse "attributes/" = Ok path →
  NoDup data.*1 →
  (Forall (λ kv, HasPrefix kv.1 "Attribute.Emulator." = true) data
   ∧ Forall (λ kv, marshal_supported kv.2 = true) data →
   ∃ evs,
     trace (world_after (SetData adapter data w))
     = trace w
       ++ EvPost (URL_String (ResolveReference u path)) "application/json"
            (json_encode (stripped data ∅)) :: evs
     ∧ Forall (λ e, is_post e = false) evs)
  ∧ (¬ (Forall (λ kv, HasPrefix kv.1 "Attribute.Emulator." = true) data
        ∧ Forall (λ kv, marshal_supported kv.2 = true) data) →
     world_after (SetData adapter data w) = w
     ∧ ∃ e, returned (SetData adapter data w) = Some (Some e, adapter)).
Proof.
  intros Hurl Hpath Hnd. split.
  - intros [Hall Hsup].
    assert (Hconv : convertVisFormatToData data = Ok (json_encode (stripped data ∅))).
    { unfold convertVisFormatToData. rewrite convert_range_accepts by done.
      apply json_Marshal_supported.
      apply stripped_supported; [done | apply map_Forall_empty]. }
    unfold SetData. rewrite Hconv, Hpath.
    unfold mbind, M_bind, bind, resolve, Post, base_setData, emit, ret.
    rewrite Hurl. simpl.
    destruct (http_Post _ _ _ (net w)) as [[res | e] n]; simpl.
    + destruct (decide (StatusCode res ≠ 201%Z)); simpl.
      * exists []. split; [reflexivity | constructor].
      * unfold mbind, M_bind, bind. simpl.
        destruct (setData _ _) as [base e]. simpl.
        exists [EvSetData (list_to_map data)].
        split; [now rewrite <- app_assoc | repeat constructor].
    + exists []. split; [reflexivity | constructor].
  - intros Hnot.
    assert (Herr : ∃ e, convertVisFormatToData data = Err e).
    { destruct (Forall_dec (λ kv, HasPrefix kv.1 "Attribute.Emulator." = true) data)
        as [Hall | Hall].
      - assert (Hsup : ¬ Forall (λ kv, marshal_supported kv.2 = true) data) by tauto.
        apply not_Forall_Exists in Hsup; [| intros kv; apply _].
        apply Exists_exists in Hsup as ([k v] & Hin & Hv). simpl in Hv.
        apply not_true_is_false in Hv.
        pose proof Hall as Hk. rewrite Forall_forall in Hk.
        pose proof (Hk _ Hin) as [suffix Hsuffix]%HasPrefix_iff.
        simpl in Hsuffix. subst k.
        exists UnsupportedValueError. unfold convertVisFormatToData.
        rewrite convert_range_accepts by done.
        apply (json_Marshal_unsupported _ suffix v); [| exact Hv].
        apply (stripped_lookup _ _ _ _ Hall Hnd). now left.
      - destruct (convert_range_refuses data ∅ Hall) as (bad & _ & _ & Hres).
        eexists. unfold convertVisFormatToData. now rewrite Hres. }
    destruct Herr as [e Herr]. rewrite (SetData_refused _ _ _ _ Herr).
    split; [reflexivity | now exists e].
Qed.

End WriteOrder.

Lemma convertVisFormatToData_order_independent_witness :
  NoDup Samples.two_writes.*1
  ∧ Samples.two_writes ≡ₚ Samples.two_writes_reordered
  ∧ Forall (λ kv, HasPrefix kv.1 "Attribute.Emulator." = true) Samples.two_writes
  ∧ stripped Samples.two_writes ∅ = stripped Samples.two_writes_reordered ∅
  ∧ size (stripped Samples.two_writes ∅) = length Samples.two_writes
  ∧ @convertVisFormatToData Demo.upstream Samples.two_writes
    = @convertVisFormatToData Demo.upstream Samples.two_writes_reordered.
Proof.
  assert (H1 : NoDup Samples.two_writes.*1)
    by (apply (bool_decide_unpack _); vm_compute; exact I).
  assert (H2 : Samples.two_writes ≡ₚ Samples.two_writes_reordered)
    by apply Permutation_swap.
  assert (H3 : Forall (λ kv, HasPrefix kv.1 "Attribute.Emulator." = true)
                 Samples.two_writes) by (repeat constructor).
  split; [exact H1 | split; [exact H2 | split; [exact H3 |]]].
  exact (proj1 (@convertVisFormatToData_order_independent Demo.upstream _ _ H1 H2) H3).
Defined.

Lemma SetData_refuses_signals_witness :
  @convertDataToVisFormat Demo.upstream Demo.stats_text
  = Ok (parseNode "Signal.Emulator" Demo.stats)
  ∧ Exists (λ kv, is_Some (parseNode "Signal.Emulator" Demo.stats !! kv.1))
      Samples.signal_write
  ∧ ∃ path,
      path ∈ Samples.signal_write.*1
      ∧ HasPrefix path "Attribute.Emulator." = false
      ∧ SetData Demo.built Samples.signal_write Demo.start
        = Returns (Some (errorString ("Path " +:+ path +:+ " does not exist")),
                   Demo.built) Demo.start.
Proof.
  assert (H1 : @convertDataToVisFormat Demo.upstream Demo.stats_text
               = Ok (parseNode "Signal.Emulator" Demo.stats)) by reflexivity.
  assert (H2 : Exists (λ kv, is_Some (parseNode "Signal.Emulator" Demo.stats !! kv.1))
                 Samples.signal_write)
    by (apply Exists_cons_hd; vm_compute; eexists; reflexivity).
  split; [exact H1 | split; [exact H2 |]].
  exact (SetData_refuses_signals Demo.built _ _ _ Demo.start H1 H2).
Defined.

Lemma SetData_reaches_upstream_iff_witness :
  sensorURL Demo.built = Some Demo.base_url
  ∧ @url_Parse Demo.upstream "attributes/" = Ok "attributes/"
  ∧ NoDup Demo.stop_write.*1
  ∧ (Forall (λ kv, HasPrefix kv.1 "Attribute.Emulator." = true) Demo.stop_write
     ∧ Forall (λ kv, marshal_supported kv.2 = true) Demo.stop_write)
  ∧ ∃ evs,
      trace (world_after (SetData Demo.built Demo.stop_write Demo.start))
      = trace Demo.start
        ++ EvPost "http://localhost:8800/attributes/" "application/json"
             (@json_encode Demo.upstream (stripped Demo.stop_write ∅)) :: evs
      ∧ Forall (λ e, is_post e = false) evs.
Proof.
  assert (H1 : NoDup Demo.stop_write.*1)
    by (apply (bool_decide_unpack _); vm_compute; exact I).
  assert (H2 : Forall (λ kv, HasPrefix kv.1 "Attribute.Emulator." = true) Demo.stop_write
               ∧ Forall (λ kv, marshal_supported kv.2 = true) Demo.stop_write)
    by (split; repeat constructor).
  split; [reflexivity | split; [reflexivity | split; [exact H1 | split; [exact H2 |]]]].
  exact (proj1 (SetData_reaches_upstream_iff Demo.built Demo.stop_write Demo.start
                  Demo.base_url "attributes/" eq_refl eq_refl H1) H2).
Defined.

(** ** Further properties of the refresh task and of construction *)

Section RefreshTrace.
Context `{Ext : Externals}.

Lemma count_events_app (kind : event → bool) (evs evs' : list event) :
  count_events kind (evs ++ evs') = count_events kind evs + count_events kind evs'.
Proof. induction evs as [|e evs IH]; simpl; [reflexivity | rewrite IH; lia]. Qed.

(** A fetch on an adapter with a sensor URL: either [stats] does not parse
    and nothing is requested, or one GET is made and its answer decides. *)
Lemma getDataFromSensorEmulator_cases (adapter : SensorEmulatorAdapter)
    (w : world) (u : URL) :
  sensorURL adapter = Some u →
  (∃ e, url_Parse "stats" = Err e
        ∧ getDataFromSensorEmulator adapter w = Returns (Err e) w)
  ∨ (∃ path,
       url_Parse "stats" = Ok path
       ∧ getDataFromSensorEmulator adapter w
         = Returns
             match (http_Get (URL_String (ResolveReference u path)) (net w)).1 with
             | Err e => Err e
             | Ok res =>
                 match Body res with
                 | Err e => Err e
                 | Ok body => convertDataToVisFormat body
                 end
             end
             (mkWorld (http_Get (URL_String (ResolveReference u path)) (net w)).2
                (trace w ++ [EvGet (URL_String (ResolveReference u path))]))).
Proof.
  intros Hurl. unfold getDataFromSensorEmulator.
  destruct (url_Parse "stats") as [path | e]; [right | left; now exists e].
  exists path. split; [reflexivity |].
  unfold mbind, M_bind, bind, resolve, Get, ret. rewrite Hurl. simpl.
  destruct (http_Get _ (net w)) as [[res | e] n]; simpl; [| reflexivity].
  now destruct (Body res).
Qed.

(** A tick whose GET is answered with a body that decodes, whatever the
    status of the answer (the code never reads it), hands the flattened
    body to the base adapter's [setData], once, and logs only the error
    [setData] returns. *)
Theorem processData_tick_refreshes (adapter : SensorEmulatorAdapter) (w : world)
    (u path : URL) (res : Response) (n : Net) (body : list byte) (doc : value) :
  sensorURL adapter = Some u →
  url_Parse "stats" = Ok path →
  http_Get (URL_String (ResolveReference u path)) (net w) = (Ok res, n) →
  Body res = Ok body →
  json_Unmarshal body = Ok doc →
  processData_tick adapter w
  = Returns
      (Continue,
       mkSensorEmulatorAdapter (Some u) (updatePeriod adapter)
         (setData (baseAdapter adapter) (parseNode "Signal.Emulator" doc)).1)
      (mkWorld n
         (trace w
          ++ [EvGet (URL_String (ResolveReference u path));
              EvSetData (parseNode "Signal.Emulator" doc)]
          ++ match (setData (baseAdapter adapter) (parseNode "Signal.Emulator" doc)).2 with
             | Some e => [EvLogError "Can't update data: %s" e]
             | None => []
             end)).
Proof.
  intros Hurl Hpath Hget Hbody Hdoc.
  destruct (getDataFromSensorEmulator_cases adapter w u Hurl)
    as [(e & He & _) | (path' & Hpath' & Hfetch)]; [congruence |].
  rewrite Hpath in Hpath'. injection Hpath' as <-.
  rewrite Hget in Hfetch. simpl in Hfetch. rewrite Hbody in Hfetch.
  unfold convertDataToVisFormat in Hfetch. rewrite Hdoc in Hfetch.
  unfold processData_tick, mbind, M_bind, bind. rewrite Hfetch.
  unfold base_setData, mbind, M_bind, bind, emit, Errorf, emit, ret. simpl.
  rewrite Hurl.
  destruct (setData (baseAdapter adapter) (parseNode "Signal.Emulator" doc))
    as [base [e |]]; simpl.
  - now rewrite <- !app_assoc.
  - now rewrite <- !app_assoc.
Qed.

Lemma processData_tick_events (adapter : SensorEmulatorAdapter) (w : world) (u : URL) :
  sensorURL adapter = Some u →
  ∃ adapter' w' evs,
    processData_tick adapter w = Returns (Continue, adapter') w'
    ∧ trace w' = trace w ++ evs
    ∧ sensorURL adapter' = Some u
    ∧ updatePeriod adapter' = updatePeriod adapter
    ∧ count_events is_post evs = 0
    ∧ count_events is_go evs = 0
    ∧ (count_events is_get evs ≤ 1)%nat
    ∧ (count_events is_setData evs ≤ count_events is_get evs)%nat
    ∧ (1 ≤ count_events is_setData evs + count_events is_log evs)%nat.
Proof.
  intros Hurl.
  destruct (getDataFromSensorEmulator_cases adapter w u Hurl)
    as [(e & _ & Hfetch) | (path & _ & Hfetch)];
    unfold processData_tick, mbind, M_bind, bind; rewrite Hfetch.
  - unfold Errorf, emit, ret. simpl.
    eexists _, _, _. split; [reflexivity |]. split; [reflexivity |].
    simpl. repeat split; try done; lia.
  - destruct (http_Get _ (net w)) as [[res | e] n]; simpl.
    2:{ unfold Errorf, emit, ret. simpl.
        eexists _, _, [_; _]. split; [reflexivity |].
        split; [now rewrite <- app_assoc |]. simpl. repeat split; try done; lia. }
    destruct (match Body res with
              | Ok body => convertDataToVisFormat body
              | Err e => Err e
              end) as [fetched | e].
    2:{ unfold Errorf, emit, ret. simpl.
        eexists _, _, [_; _]. split; [reflexivity |].
        split; [now rewrite <- app_assoc |]. simpl. repeat split; try done; lia. }
    unfold base_setData, mbind, M_bind, bind, emit, Errorf, emit, ret. simpl.
    destruct (setData (baseAdapter adapter) fetched) as [base [e |]]; simpl.
    + eexists _, _, [_; _; _]. split; [reflexivity |].
      split; [now rewrite <- !app_assoc |]. simpl. repeat split; try done; lia.
    + eexists _, _, [_; _]. split; [reflexivity |].
      split; [now rewrite <- !app_assoc |]. simpl. repeat split; try done; lia.
Qed.

(** What the refresh task does over any number of ticks: it never posts
    and never starts a goroutine; it makes at most one GET per tick and
    calls [setData] at most once per GET; every tick leaves a [setData]
    call or a logged error behind; and the adapter keeps its sensor URL and
    its period. *)
Theorem processData_loop_trace (ticks : nat) (adapter : SensorEmulatorAdapter)
    (w : world) (u : URL) :
  sensorURL adapter = Some u →
  ∃ adapter' w' evs,
    processData_loop ticks adapter w = Returns (Running adapter') w'
    ∧ trace w' = trace w ++ evs
    ∧ sensorURL adapter' = Some u
    ∧ updatePeriod adapter' = updatePeriod adapter
    ∧ count_events is_post evs = 0
    ∧ count_events is_go evs = 0
    ∧ (count_events is_get evs ≤ ticks)%nat
    ∧ (count_events is_setData evs ≤ count_events is_get evs)%nat
    ∧ (ticks ≤ count_events is_setData evs + count_events is_log evs)%nat.
Proof.
  revert adapter w. induction ticks as [|ticks IH]; intros adapter w Hurl.
  - exists adapter, w, []. rewrite app_nil_r. simpl. repeat split; done.
  - destruct (processData_tick_events adapter w u Hurl)
      as (a1 & w1 & evs1 & Htick & Htrace1 & Hurl1 & Hper1 & Hp1 & Hg1 & Hget1
          & Hset1 & Hmark1).
    destruct (IH a1 w1 Hurl1)
      as (a2 & w2 & evs2 & Hloop & Htrace2 & Hurl2 & Hper2 & Hp2 & Hg2 & Hget2
          & Hset2 & Hmark2).
    exists a2, w2, (evs1 ++ evs2).
    simpl. unfold mbind, M_bind, bind. rewrite Htick.
    split; [exact Hloop |].
    split; [now rewrite Htrace2, Htrace1, app_assoc |].
    rewrite !count_events_app.
    repeat split; try done; try congruence; lia.
Qed.

End RefreshTrace.

Lemma processData_tick_refreshes_witness :
  sensorURL Demo.built = Some Demo.base_url
  ∧ processData_tick Demo.built Demo.start
    = Returns
        (Continue,
         @mkSensorEmulatorAdapter Demo.upstream (Some Demo.base_url)
           (updatePeriod Demo.built)
           (Demo.set_data (baseAdapter Demo.built)
              (parseNode "Signal.Emulator" Demo.stats)).1)
        (Demo.world_at 1
           ([] ++ [EvGet "http://localhost:8800/stats";
                   EvSetData (parseNode "Signal.Emulator" Demo.stats)]
            ++ match (Demo.set_data (baseAdapter Demo.built)
                        (parseNode "Signal.Emulator" Demo.stats)).2 with
               | Some e => [EvLogError "Can't update data: %s" e]
               | None => []
               end)).
Proof.
  split; [reflexivity |].
  exact (processData_tick_refreshes Demo.built Demo.start Demo.base_url "stats"
           (mkResponse 200 "200 OK" (Ok Demo.stats_text)) 1%nat Demo.stats_text
           Demo.stats eq_refl eq_refl eq_refl eq_refl eq_refl).
Defined.

Lemma processData_loop_trace_witness :
  sensorURL Demo.built = Some Demo.base_url
  ∧ ∃ adapter' w' evs,
      processData_loop 3 Demo.built Demo.start = Returns (Running adapter') w'
      ∧ trace w' = trace Demo.start ++ evs
      ∧ count_events is_post evs = 0
      ∧ (count_events is_get evs ≤ 3)%nat.
Proof.
  split; [reflexivity |].
  destruct (processData_loop_trace 3 Demo.built Demo.start Demo.base_url eq_refl)
    as (a & w' & evs & Hloop & Htrace & _ & _ & Hpost & _ & Hget & _).
  exists a, w', evs. repeat split; assumption.
Defined.

(** ** Construction, event by event *)

Section ConstructionTrace.
Context `{Ext : Externals}.

(** Construction asks the upstream at most once, with a GET, and writes
    nothing.  The refresh goroutine is started exactly when an adapter is
    returned, as the last thing done; when construction returns an error or
    panics, no goroutine was started. *)
Theorem NewSensorEmulatorAdapter_trace (configJSON : list byte) (w : world) :
  match NewSensorEmulatorAdapter configJSON w with
  | Returns (Ok adapter) w' =>
      ∃ address, trace w' = trace w ++ [EvGet address; EvGo "processData"]
  | Returns (Err e) w' =>
      w' = w ∨ ∃ address, trace w' = trace w ++ [EvGet address]
  | Panics msg w' => w' = w
  end.
Proof.
  unfold NewSensorEmulatorAdapter.
  destruct (Unmarshal_config configJSON _) as [cfg | e]; [| now left].
  destruct (decide (SensorURL cfg = EmptyString)) as [| Hne]; [now left |].
  destruct newBaseAdapter as [base | e]; [| now left].
  unfold mbind, M_bind, bind, getDataFromSensorEmulator.
  destruct (url_Parse "stats") as [path | e]; [| now left].
  unfold mbind, M_bind, bind, resolve, Get, ret, panic, emit. simpl.
  destruct (url_Parse (SensorURL cfg)) as [u | e]; simpl; [| reflexivity].
  destruct (http_Get _ (net w)) as [[res | e] n]; simpl.
  - destruct (Body res) as [body | e]; simpl.
    + destruct (convertDataToVisFormat body) as [fetched | e]; simpl.
      * eexists. now rewrite <- app_assoc.
      * right. now eexists.
    + right. now eexists.
  - right. now eexists.
Qed.

Lemma create_attributes_dom (store : gmap string baseData) :
  dom (create_attributes store) = dom store ∪ list_to_set attribute_paths.
Proof.
  apply set_eq. intros k.
  rewrite elem_of_union, !elem_of_dom, create_attributes_lookup, elem_of_list_to_set.
  destruct (decide (k ∈ attribute_paths)) as [Hin | Hnin].
  - split; [now right | intros _; by eexists].
  - tauto.
Qed.

(** The paths of a constructed adapter are those of the fresh base
    adapter, those of the initial fetch and the seven attributes, and no
    others; a path of the base adapter that is neither fetched nor an
    attribute keeps its row, and the lock is as the base adapter had it.
    The initial fetch is the body of the answer to the one GET of [stats],
    resolved against the adapter's sensor URL and made in the world
    construction started in, decoded and flattened under
    [Signal.Emulator]. *)
Theorem NewSensorEmulatorAdapter_paths (configJSON : list byte) (w w' : world)
    (adapter : SensorEmulatorAdapter) :
  NewSensorEmulatorAdapter configJSON w = Returns (Ok adapter) w' →
  ∃ base u path res body doc,
    newBaseAdapter = Ok base
    ∧ sensorURL adapter = Some u
    ∧ url_Parse "stats" = Ok path
    ∧ http_Get (URL_String (ResolveReference u path)) (net w) = (Ok res, net w')
    ∧ Body res = Ok body
    ∧ json_Unmarshal body = Ok doc
    ∧ dom (data (baseAdapter adapter))
      = dom (data base) ∪ dom (parseNode "Signal.Emulator" doc)
        ∪ list_to_set attribute_paths
    ∧ mutex (baseAdapter adapter) = mutex base
    ∧ ∀ k, parseNode "Signal.Emulator" doc !! k = None → k ∉ attribute_paths →
           data (baseAdapter adapter) !! k = data base !! k.
Proof.
  unfold NewSensorEmulatorAdapter.
  destruct (Unmarshal_config configJSON _) as [cfg | e]; [| discriminate].
  destruct (decide (SensorURL cfg = EmptyString)); [discriminate |].
  destruct newBaseAdapter as [base | e]; [| discriminate].
  unfold mbind, M_bind, bind.
  destruct (getDataFromSensorEmulator _ w) as [[fetched | e] w1 | msg w1] eqn:Hget;
    try discriminate.
  unfold emit, ret. intros [= <- <-]. simpl.
  destruct (getDataFromSensorEmulator_Ok_fetch _ _ _ _ Hget)
    as (u & path & res & body & doc & Hurl & Hpath & Hres & Hbody & Hdoc & -> & _).
  simpl in Hurl.
  exists base, u, path, res, body, doc.
  split; [reflexivity | split; [exact Hurl | split; [exact Hpath |]]].
  split; [exact Hres | split; [exact Hbody | split; [exact Hdoc |]]].
  split; [| split; [reflexivity |]].
  - rewrite create_attributes_dom, store_initial_fmap, dom_union_L, dom_fmap_L.
    f_equal. apply (comm_L (∪)).
  - intros k Hk Hattr.
    rewrite create_attributes_lookup, decide_False by done.
    rewrite store_initial_fmap. apply lookup_union_r.
    now rewrite lookup_fmap, Hk.
Qed.

Lemma int64_small (z : Z) :
  (- 2 ^ 63 ≤ z < 2 ^ 63)%Z → int64 z = z.
Proof. intros H. unfold int64. rewrite Z.mod_small; lia. Qed.

Lemma int64_range (z : Z) : (- 2 ^ 63 ≤ int64 z < 2 ^ 63)%Z.
Proof.
  unfold int64. pose proof (Z.mod_pos_bound (z + 2 ^ 63) (2 ^ 64)). lia.
Qed.

(** The periods the ticker can take.  From 1 to 9223372036854
    milliseconds the ticker gets exactly that period, and [processData]
    enters its loop; past that bound the count of nanoseconds no longer
    fits an [int64], and the ticker is asked for some other duration than
    the one configured. *)
Theorem ticker_period_range (ticks : nat) (adapter : SensorEmulatorAdapter)
    (w : world) :
  ((1 ≤ updatePeriod adapter ≤ max_period)%N →
   ticker_period adapter = (Z.of_N (updatePeriod adapter) * 1000000)%Z
   ∧ (0 < ticker_period adapter)%Z
   ∧ processData ticks adapter w = processData_loop ticks adapter w)
  ∧ ((max_period < updatePeriod adapter)%N →
     ticker_period adapter ≠ (Z.of_N (updatePeriod adapter) * 1000000)%Z).
Proof.
  unfold max_period. split.
  - intros Hrange.
    assert (Hperiod : ticker_period adapter
                      = (Z.of_N (updatePeriod adapter) * 1000000)%Z).
    { unfold ticker_period.
      rewrite (int64_small (Z.of_N (updatePeriod adapter))) by lia.
      rewrite int64_small by lia. reflexivity. }
    split; [exact Hperiod | split; [lia |]].
    unfold processData.
    destruct (Z.leb_spec (ticker_period adapter) 0); [lia | reflexivity].
  - intros Hbig Heq. unfold ticker_period in Heq.
    pose proof (int64_range (int64 (Z.of_N (updatePeriod adapter)) * 1000000)).
    lia.
Qed.

End ConstructionTrace.

Lemma NewSensorEmulatorAdapter_paths_witness :
  @NewSensorEmulatorAdapter Demo.upstream Demo.config_plain Demo.start
  = Returns (Ok Demo.built)
      (Demo.world_at 1 [EvGet "http://localhost:8800/stats"; EvGo "processData"])
  ∧ ∃ doc,
      @json_Unmarshal Demo.upstream Demo.stats_text = Ok doc
      ∧ dom (data (baseAdapter Demo.built))
        = dom (∅ : gmap string baseData) ∪ dom (parseNode "Signal.Emulator" doc)
          ∪ list_to_set attribute_paths.
Proof.
  assert (H : @NewSensorEmulatorAdapter Demo.upstream Demo.config_plain Demo.start
              = Returns (Ok Demo.built)
                  (Demo.world_at 1
                     [EvGet "http://localhost:8800/stats"; EvGo "processData"]))
    by reflexivity.
  split; [exact H |].
  destruct (NewSensorEmulatorAdapter_paths _ _ _ _ H)
    as (base & u & path & res & body & doc & Hbase & Hurl & Hpath & Hres & Hbody
        & Hdoc & Hdom & _).
  injection Hbase as <-. injection Hurl as <-. injection Hpath as <-.
  injection Hres as <-. injection Hbody as <-.
  exists doc. split; [exact Hdoc | exact Hdom].
Defined.

Lemma ticker_period_range_witness :
  (1 ≤ updatePeriod Demo.built ≤ max_period)%N
  ∧ ticker_period Demo.built = 500000000%Z
  ∧ (max_period < updatePeriod (Demo.built_with 9223372036855))%N
  ∧ ticker_period (Demo.built_with 9223372036855)
    ≠ (Z.of_N 9223372036855 * 1000000)%Z.
Proof.
  assert (H1 : (1 ≤ updatePeriod Demo.built ≤ max_period)%N)
    by (vm_compute; split; discriminate).
  assert (H2 : (max_period < updatePeriod (Demo.built_with 9223372036855))%N)
    by reflexivity.
  split; [exact H1 | split; [| split; [exact H2 |]]].
  - exact (proj1 (proj1 (ticker_period_range 0 Demo.built Demo.start) H1)).
  - exact (proj2 (ticker_period_range 0 (Demo.built_with 9223372036855) Demo.start) H2).
Defined.
